(** * commit-cat: a shallow embedding of the commit assistant

  The development follows the JavaScript sources:
  - [src/utils.js]      text layout ([getVisualWidth], [wrapText], [boxMessage]);
  - [src/git.js]        [getFileDiff], [getCommentSyntax], [editCommitMessage];
  - [bin/commit-cat.mjs] error display, the action loop and the suggestion injector;
  - the earlier single-file tool kept beside [src/ui.js]: the size-bounded
    diff collector ([LIMITS], [getFileDiff], the filtering loop of [main]).

  JavaScript strings are sequences of UTF-16 code units, numbers that the
  code uses as widths, sizes and indices are integers. *)

From Stdlib Require Import ZArith NArith List String Ascii Lia Bool.
From stdpp Require Import base option list gmap.
Import ListNotations.

Local Open Scope Z_scope.

(** ** JavaScript strings *)

Module JS.

(** A string is the list of its UTF-16 code units ([charCodeAt]). *)
Abbreviation jsstring := (list N).

(** An ASCII literal as a JavaScript string. *)
Definition js (s : string) : jsstring :=
  map N_of_ascii (list_ascii_of_string s).
Arguments js _%_string.

Definition NL : N := 10%N.
Definition SP : N := 32%N.
Definition DQUOTE : N := 34%N.

(** [s.length], of a string or an array. *)
Definition len {A : Type} (s : list A) : Z := Z.of_nat (length s).

(** Truthiness of a string: the empty string is falsy. *)
Definition truthy (s : jsstring) : bool :=
  match s with [] => false | _ :: _ => true end.

(** WhiteSpace and LineTerminator code units: what [\s] matches and what
    [trim] removes. *)
Definition isWhiteSpace (c : N) : bool :=
  ((9 <=? c) && (c <=? 13) || (c =? 32) || (c =? 160) || (c =? 5760)
   || ((8192 <=? c) && (c <=? 8202)) || (c =? 8232) || (c =? 8233)
   || (c =? 8239) || (c =? 8287) || (c =? 12288) || (c =? 65279))%N.

Fixpoint trimStart (s : jsstring) : jsstring :=
  match s with
  | [] => []
  | c :: s' => if isWhiteSpace c then trimStart s' else s
  end.

Definition trimEnd (s : jsstring) : jsstring := rev (trimStart (rev s)).

Definition trim (s : jsstring) : jsstring := trimEnd (trimStart s).

(** The leading run of whitespace: [s.match(/^\s*/)[0]]. *)
Fixpoint leadingWhiteSpace (s : jsstring) : jsstring :=
  match s with
  | [] => []
  | c :: s' => if isWhiteSpace c then c :: leadingWhiteSpace s' else []
  end.

(** [s.startsWith(p)] *)
Fixpoint startsWith (p s : jsstring) : bool :=
  match p, s with
  | [], _ => true
  | _ :: _, [] => false
  | a :: p', b :: s' => (a =? b)%N && startsWith p' s'
  end.

(** [s.includes(p)] *)
Fixpoint includes (s p : jsstring) : bool :=
  startsWith p s ||
  match s with
  | [] => false
  | _ :: s' => includes s' p
  end.

(** [s.split("\n")] *)
Fixpoint split_nl (s : jsstring) : list jsstring :=
  match s with
  | [] => [[]]
  | c :: s' =>
      if (c =? NL)%N then [] :: split_nl s'
      else match split_nl s' with
           | l :: ls => (c :: l) :: ls
           | [] => [[c]]
           end
  end.

(** [lines.join("\n")] *)
Fixpoint join_nl (ls : list jsstring) : jsstring :=
  match ls with
  | [] => []
  | [l] => l
  | l :: ls' => l ++ NL :: join_nl ls'
  end.

(** [s.split(sep)[0]] for a non-empty separator: the part of [s] before
    the first occurrence of [sep], all of [s] when there is none. *)
Fixpoint split_first (sep s : jsstring) : jsstring :=
  match s with
  | [] => []
  | c :: s' => if startsWith sep s then [] else c :: split_first sep s'
  end.

(** [glyph.repeat(n)] for a one-unit glyph. *)
Definition repeat_unit (c : N) (n : Z) : jsstring := repeat c (Z.to_nat n).

(** Surrogates, and the string iterator ([for (const char of s)]), which
    yields one string per code point: a high surrogate followed by a low
    one is a single two-unit element, every other unit stands alone. *)
Definition isHighSurrogate (c : N) : bool := ((55296 <=? c) && (c <=? 56319))%N.
Definition isLowSurrogate (c : N) : bool := ((56320 <=? c) && (c <=? 57343))%N.

Fixpoint chars (s : jsstring) : list jsstring :=
  match s with
  | [] => []
  | c :: s' =>
      match s' with
      | d :: s'' =>
          if isHighSurrogate c && isLowSurrogate d
          then [c; d] :: chars s''
          else [c] :: chars s'
      | [] => [[c]]
      end
  end.

(** [ch.codePointAt(0)] of an element produced by the iterator. *)
Definition codePoint (ch : jsstring) : N :=
  match ch with
  | [] => 0
  | [c] => c
  | h :: l :: _ =>
      if isHighSurrogate h && isLowSurrogate l
      then (65536 + (h - 55296) * 1024 + (l - 56320))%N
      else h
  end.

Definition isAscii (c : N) : Prop := (c < 128)%N.

(** A string without a line feed. *)
Definition noNL (s : jsstring) : Prop := ~ In NL s.

End JS.

Import JS.

(** ** src/utils.js: the text layout utility *)

Module Utils.

(** The part of Node's [process] object the layout code looks at. *)
Record Stdout := { columns : option Z }.
Record Process := { stdout : option Stdout }.

(** [process && process.stdout && process.stdout.columns ? process.stdout.columns : 80] *)
Definition terminalColumns (process : option Process) : Z :=
  match process with
  | Some p =>
      match stdout p with
      | Some o =>
          match columns o with
          | Some c => if c =? 0 then 80 else c
          | None => 80
          end
      | None => 80
      end
  | None => 80
  end.

(** [getVisualWidth]: one pass over the code units. *)
Definition getVisualWidth (str : jsstring) : Z :=
  fold_left (fun width code => width + (if (255 <? code)%N then 2 else 1)) str 0.

(** The width [getVisualWidth] gives one code unit: [code > 255 ? 2 : 1]. *)
Definition unitWidth (code : N) : Z := if (255 <? code)%N then 2 else 1.

Definition sumZ (l : list Z) : Z := fold_right Z.add 0 l.

(** [maxWidth || Math.min(80, cols - 12)]: an omitted limit, like a zero
    one, is falsy. *)
Definition wrapLimit (maxWidth : option Z) (process : option Process) : Z :=
  match maxWidth with
  | Some w => if w =? 0 then Z.min 80 (terminalColumns process - 12) else w
  | None => Z.min 80 (terminalColumns process - 12)
  end.

(** The inner loop of [wrapText] over one paragraph; the result is what
    the loop and the final [lines.push(currentLine)] add to [lines]. *)
Fixpoint wrapChars (limit : Z) (cs : list jsstring)
         (currentLine : jsstring) (currentWidth : Z) : list jsstring :=
  match cs with
  | [] => [currentLine]
  | char :: cs' =>
      let charWidth := getVisualWidth char in
      if currentWidth + charWidth >? limit
      then currentLine :: wrapChars limit cs' char charWidth
      else wrapChars limit cs' (currentLine ++ char) (currentWidth + charWidth)
  end.

Definition wrapParagraph (limit : Z) (paragraph : jsstring) : list jsstring :=
  wrapChars limit (chars paragraph) [] 0.

(** The [lines] array of [wrapText] when the text is not empty. *)
Definition wrapLines (text : jsstring) (maxWidth : option Z)
           (process : option Process) : list jsstring :=
  flat_map (wrapParagraph (wrapLimit maxWidth process)) (split_nl text).

Definition wrapText (text : jsstring) (maxWidth : option Z)
           (process : option Process) : jsstring :=
  if truthy text then join_nl (wrapLines text maxWidth process) else [].

(** *** [boxMessage] *)

(** The box-drawing glyphs of the frame. *)
Definition TOP_LEFT : N := 9484%N.      (* U+250C *)
Definition TOP_RIGHT : N := 9488%N.     (* U+2510 *)
Definition BOTTOM_LEFT : N := 9492%N.   (* U+2514 *)
Definition BOTTOM_RIGHT : N := 9496%N.  (* U+2518 *)
Definition TEE_LEFT : N := 9500%N.      (* U+251C *)
Definition TEE_RIGHT : N := 9508%N.     (* U+2524 *)
Definition DASH : N := 9472%N.          (* U+2500 *)
Definition BAR : N := 9474%N.           (* U+2502 *)

(** [Math.min(80, cols - 4)] *)
Definition maxContentWidth (process : option Process) : Z :=
  Z.min 80 (terminalColumns process - 4).

(** [wrapText(text, maxContentWidth, process).split("\n")] *)
Definition boxLines (text : jsstring) (process : option Process) : list jsstring :=
  split_nl (wrapText text (Some (maxContentWidth process)) process).

(** The [forEach] that looks for the widest line. *)
Definition widestLine (lines : list jsstring) : Z :=
  fold_left (fun contentWidth l =>
               let w := getVisualWidth l in
               if w >? contentWidth then w else contentWidth) lines 0.

(** [Math.max(contentWidth, titleWidth + 2)] *)
Definition contentWidth (title text : jsstring) (process : option Process) : Z :=
  Z.max (widestLine (boxLines text process)) (getVisualWidth title + 2).

Definition boxWidth (title text : jsstring) (process : option Process) : Z :=
  contentWidth title text process + 2.

Definition topBorder (bw : Z) : jsstring :=
  [TOP_LEFT] ++ repeat_unit DASH bw ++ [TOP_RIGHT].
Definition bottomBorder (bw : Z) : jsstring :=
  [BOTTOM_LEFT] ++ repeat_unit DASH bw ++ [BOTTOM_RIGHT].
Definition separator (bw : Z) : jsstring :=
  [TEE_LEFT] ++ repeat_unit DASH bw ++ [TEE_RIGHT].

(** [boxWidth - titleWidth - 3] *)
Definition rightDashes (bw : Z) (title : jsstring) : Z :=
  bw - getVisualWidth title - 3.

(** [boxWidth - w - 1] *)
Definition padding (bw : Z) (line : jsstring) : Z :=
  bw - getVisualWidth line - 1.

Definition topWithTitle (bw : Z) (title : jsstring) : jsstring :=
  [TOP_LEFT; DASH; SP] ++ title ++ [SP]
    ++ repeat_unit DASH (Z.max 0 (rightDashes bw title)) ++ [TOP_RIGHT].

Definition contentRow (bw : Z) (line : jsstring) : jsstring :=
  [BAR; SP] ++ line ++ repeat_unit SP (Z.max 0 (padding bw line)) ++ [BAR].

(** The [out] array. *)
Definition boxOut (title text : jsstring) (process : option Process) : list jsstring :=
  let bw := boxWidth title text process in
  [topWithTitle bw title]
    ++ map (contentRow bw) (boxLines text process)
    ++ [bottomBorder bw].

Definition boxMessage (title text : jsstring) (process : option Process) : jsstring :=
  join_nl (boxOut title text process).

(** How a row of the box is laid out on the terminal: the pieces that
    [boxMessage] draws itself (corners, dashes, bars and the spaces around
    the text) take one column per glyph; the title and the wrapped lines
    are measured by [getVisualWidth], as [boxMessage] measures them. *)
Inductive piece :=
| Frame (glyphs : jsstring)
| Content (s : jsstring).

Definition pieceText (p : piece) : jsstring :=
  match p with Frame g => g | Content s => s end.

Definition pieceWidth (p : piece) : Z :=
  match p with Frame g => len g | Content s => getVisualWidth s end.

Definition rowText (r : list piece) : jsstring := concat (map pieceText r).

Definition rowWidth (r : list piece) : Z :=
  fold_right (fun p acc => pieceWidth p + acc) 0 r.

Definition topPieces (bw : Z) (title : jsstring) : list piece :=
  [Frame [TOP_LEFT; DASH; SP]; Content title; Frame [SP];
   Frame (repeat_unit DASH (Z.max 0 (rightDashes bw title))); Frame [TOP_RIGHT]].

Definition contentPieces (bw : Z) (line : jsstring) : list piece :=
  [Frame [BAR; SP]; Content line;
   Frame (repeat_unit SP (Z.max 0 (padding bw line))); Frame [BAR]].

Definition bottomPieces (bw : Z) : list piece :=
  [Frame [BOTTOM_LEFT]; Frame (repeat_unit DASH bw); Frame [BOTTOM_RIGHT]].

Definition boxRows (title text : jsstring) (process : option Process)
  : list (list piece) :=
  let bw := boxWidth title text process in
  [topPieces bw title]
    ++ map (contentPieces bw) (boxLines text process)
    ++ [bottomPieces bw].

(** The terminal width is unknown when [process], [process.stdout] or
    [process.stdout.columns] is missing (or the latter is zero). *)
Definition columnsUnknown (process : option Process) : Prop :=
  match process with
  | Some {| stdout := Some {| columns := Some c |} |} => c = 0
  | _ => True
  end.

(** Inputs used below. *)
Definition CAT : jsstring := [55357%N; 56369%N].   (* U+1F431, one code point *)
Definition HANGUL_HAN : jsstring := [54620%N].      (* U+D55C *)
Definition termUnknown : option Process := None.
Definition term (cols : Z) : option Process :=
  Some {| stdout := Some {| columns := Some cols |} |}.

End Utils.

(** ** The platform: Node built-ins used by the sources *)

Module Node.

(** The result of a call that may throw; the exception carries
    [e.message]. *)
Inductive result (A : Type) :=
| Ok (a : A)
| Throw (message : jsstring).
Arguments Ok {A} a.
Arguments Throw {A} message.

(** [String.prototype.toLowerCase]. The units whose lower case holds an
    ASCII unit are mapped as the language does: the letters A to Z, the
    Kelvin sign U+212A (lower case k) and the dotted capital I U+0130
    (lower case i followed by the combining dot U+0307). Any other unit
    is kept as it is: its lower case, when it differs, lies outside ASCII
    as well, so the result compares with an ASCII string, such as an entry
    of the extension tables, as the result of the code does. *)
Definition lowerUnit (c : N) : jsstring :=
  if ((65 <=? c) && (c <=? 90))%N then [(c + 32)%N]
  else if (c =? 8490)%N then [107%N]
  else if (c =? 304)%N then [105%N; 775%N]
  else [c].

Definition toLowerCase (s : jsstring) : jsstring :=
  flat_map lowerUnit s.

(** [path.extname] (POSIX): one pass from the end of the path, as in
    Node's lib/path.js. *)
Record extState := {
  startDot : Z; startPart : Z; endPos : Z;
  matchedSlash : bool; preDotState : Z; stopped : bool }.

Definition SLASH : N := 47%N.
Definition DOT : N := 46%N.

Definition extStep (i : Z) (code : N) (st : extState) : extState :=
  if stopped st then st
  else if (code =? SLASH)%N then
    if negb (matchedSlash st)
    then {| startDot := startDot st; startPart := i + 1; endPos := endPos st;
            matchedSlash := matchedSlash st; preDotState := preDotState st;
            stopped := true |}
    else st
  else
    let st1 :=
      if endPos st =? -1
      then {| startDot := startDot st; startPart := startPart st; endPos := i + 1;
              matchedSlash := false; preDotState := preDotState st;
              stopped := false |}
      else st in
    if (code =? DOT)%N then
      if startDot st1 =? -1
      then {| startDot := i; startPart := startPart st1; endPos := endPos st1;
              matchedSlash := matchedSlash st1; preDotState := preDotState st1;
              stopped := false |}
      else {| startDot := startDot st1; startPart := startPart st1;
              endPos := endPos st1; matchedSlash := matchedSlash st1;
              preDotState := 1; stopped := false |}
    else if negb (startDot st1 =? -1)
    then {| startDot := startDot st1; startPart := startPart st1;
            endPos := endPos st1; matchedSlash := matchedSlash st1;
            preDotState := -1; stopped := false |}
    else st1.

(** The loop [for (let i = path.length - 1; i >= 0; --i)], over the
    reversed path. *)
Fixpoint extScan (rpath : list N) (i : Z) (st : extState) : extState :=
  match rpath with
  | [] => st
  | code :: rest => extScan rest (i - 1) (extStep i code st)
  end.

(** [s.slice(from, to)] for indices within the string. *)
Definition slice (s : jsstring) (from to : Z) : jsstring :=
  firstn (Z.to_nat (to - from)) (skipn (Z.to_nat from) s).

Definition extname (path : jsstring) : jsstring :=
  let st := extScan (rev path) (len path - 1)
              {| startDot := -1; startPart := 0; endPos := -1;
                 matchedSlash := true; preDotState := 0; stopped := false |} in
  if (startDot st =? -1) || (endPos st =? -1) || (preDotState st =? 0)
     || ((preDotState st =? 1) && (startDot st =? endPos st - 1)
         && (startDot st =? startPart st + 1))
  then []
  else slice path (startDot st) (endPos st).

(** [Array.prototype.includes] on an array of strings. *)
Definition arrayIncludes (arr : list jsstring) (s : jsstring) : bool :=
  existsb (fun x => bool_decide (x = s)) arr.

(** The decimal or hexadecimal digit a code unit stands for. *)
Definition digitValue (radix : Z) (c : N) : option Z :=
  let v :=
    if ((48 <=? c) && (c <=? 57))%N then Some (Z.of_N c - 48)
    else if ((97 <=? c) && (c <=? 122))%N then Some (Z.of_N c - 87)
    else if ((65 <=? c) && (c <=? 90))%N then Some (Z.of_N c - 55)
    else None in
  match v with
  | Some d => if d <? radix then Some d else None
  | None => None
  end.

(** The longest prefix of digits, read as a number; [None] when there is
    no digit. *)
Fixpoint digitsPrefix (radix : Z) (s : jsstring) (acc : option Z) : option Z :=
  match s with
  | [] => acc
  | c :: s' =>
      match digitValue radix c with
      | Some d =>
          digitsPrefix radix s'
            (Some (match acc with Some a => a * radix + d | None => d end))
      | None => acc
      end
  end.

(** [parseInt(s)] with no radix; [None] is NaN. *)
Definition parseInt (s : jsstring) : option Z :=
  let s1 := trimStart s in
  let '(sign, s2) :=
    match s1 with
    | 45%N :: r => (-1, r)
    | 43%N :: r => (1, r)
    | _ => (1, s1)
    end in
  let '(radix, s3) :=
    match s2 with
    | 48%N :: 120%N :: r => (16, r)
    | 48%N :: 88%N :: r => (16, r)
    | _ => (10, s2)
    end in
  match digitsPrefix radix s3 None with
  | Some n => Some (sign * n)
  | None => None
  end.

(** The outside world as the tools see it through [fs.statSync] and
    [child_process.execSync]: the size of a path on disk, and the output
    of a command; either call may throw. *)
Record World := {
  statSize : jsstring -> result Z;
  execSync : jsstring -> result jsstring }.

End Node.

Import Node.

(** ** The size-bounded diff collector (the single-file tool, v2.0) *)

Module Collector.

Definition MAX_FILE_SIZE : Z := 30000.
Definition MAX_TOTAL_SIZE : Z := 100000.

Definition IGNORE_PATTERNS : list jsstring :=
  [js "package-lock.json"; js "yarn.lock"; js "pnpm-lock.yaml"; js "bun.lockb";
   js ".map"; js "dist/"; js "build/"; js ".DS_Store"].

Definition BINARY_EXTENSIONS : list jsstring :=
  [js ".png"; js ".jpg"; js ".jpeg"; js ".gif"; js ".ico"; js ".svg";
   js ".woff"; js ".woff2"; js ".ttf"; js ".eot"; js ".mp4"; js ".mov";
   js ".mp3"; js ".zip"; js ".tar"; js ".gz"; js ".pdf"].

(** What [getFileDiff] returns: [{ skip: true, reason }] or
    [{ skip: false, content }]. *)
Inductive FileDiff :=
| Skip (reason : jsstring)
| Diff (content : jsstring).

(** [IGNORE_PATTERNS.some((pattern) => file.includes(pattern))] *)
Definition isIgnored (file : jsstring) : bool :=
  existsb (fun pattern => includes file pattern) IGNORE_PATTERNS.

(** [BINARY_EXTENSIONS.includes(path.extname(file).toLowerCase())] *)
Definition isBinary (file : jsstring) : bool :=
  arrayIncludes BINARY_EXTENSIONS (toLowerCase (extname file)).

(** The command line [git diff --staged "<file>"]. *)
Definition diffCommand (file : jsstring) : jsstring :=
  js "git diff --staged " ++ [DQUOTE] ++ file ++ [DQUOTE].

Definition getFileDiff (W : World) (file : jsstring) : FileDiff :=
  match statSize W file with
  | Throw _ => Skip (js "error reading")
  | Ok size =>
      if isIgnored file then Skip (js "ignored")
      else if isBinary file then Skip (js "binary")
      else if size >? MAX_FILE_SIZE then Skip (js "too large")
      else match execSync W (diffCommand file) with
           | Throw _ => Skip (js "error reading")
           | Ok diff =>
               if len diff >? MAX_FILE_SIZE then Skip (js "diff too large")
               else Diff diff
           end
  end.

(** The variables of the filtering loop of [main]. *)
Record Collected := {
  fullDiff : jsstring;
  totalSize : Z;
  skippedFiles : list jsstring }.

Definition start : Collected :=
  {| fullDiff := []; totalSize := 0; skippedFiles := [] |}.

(** [skippedFiles.push(`${file} (${reason})`)] *)
Definition skipEntry (file reason : jsstring) : jsstring :=
  file ++ js " (" ++ reason ++ js ")".

Definition pushSkipped (st : Collected) (file reason : jsstring) : Collected :=
  {| fullDiff := fullDiff st; totalSize := totalSize st;
     skippedFiles := skippedFiles st ++ [skipEntry file reason] |}.

(** [`--- ${file}\n+++ ${file}\n${res.content}\n`] *)
Definition diffBlock (file content : jsstring) : jsstring :=
  js "--- " ++ file ++ [NL] ++ js "+++ " ++ file ++ [NL] ++ content ++ [NL].

(** One turn of [for (const file of stagedFiles)]. *)
Definition step (W : World) (st : Collected) (file : jsstring) : Collected :=
  if totalSize st >=? MAX_TOTAL_SIZE then pushSkipped st file (js "Total Limit")
  else match getFileDiff W file with
       | Skip reason => pushSkipped st file reason
       | Diff content =>
           if totalSize st + len content >? MAX_TOTAL_SIZE
           then pushSkipped st file (js "Total Limit")
           else {| fullDiff := fullDiff st ++ diffBlock file content;
                   totalSize := totalSize st + len content;
                   skippedFiles := skippedFiles st |}
       end.

Definition collectFrom (W : World) (st : Collected) (stagedFiles : list jsstring)
  : Collected :=
  fold_left (step W) stagedFiles st.

Definition collect (W : World) (stagedFiles : list jsstring) : Collected :=
  collectFrom W start stagedFiles.

(** The fate of one staged file, read off the branches of the loop body:
    [total] is the running total when the file is reached. *)
Inductive verdict :=
| Skipped (reason : jsstring)
| Included (content : jsstring).

Definition verdictAt (W : World) (total : Z) (file : jsstring) : verdict :=
  if total >=? MAX_TOTAL_SIZE then Skipped (js "Total Limit")
  else match getFileDiff W file with
       | Skip reason => Skipped reason
       | Diff content =>
           if total + len content >? MAX_TOTAL_SIZE
           then Skipped (js "Total Limit")
           else Included content
       end.

Definition grow (total : Z) (v : verdict) : Z :=
  match v with
  | Skipped _ => total
  | Included content => total + len content
  end.

(** The files of the listing, in order, each with its fate. *)
Fixpoint trace (W : World) (total : Z) (files : list jsstring)
  : list (jsstring * verdict) :=
  match files with
  | [] => []
  | file :: rest =>
      let v := verdictAt W total file in
      (file, v) :: trace W (grow total v) rest
  end.

Definition includedOf (tr : list (jsstring * verdict)) : list (jsstring * jsstring) :=
  flat_map (fun fv => match snd fv with
                      | Included c => [(fst fv, c)]
                      | Skipped _ => []
                      end) tr.

Definition skippedOf (tr : list (jsstring * verdict)) : list (jsstring * jsstring) :=
  flat_map (fun fv => match snd fv with
                      | Skipped r => [(fst fv, r)]
                      | Included _ => []
                      end) tr.

(** A world for the examples: every path is a small file on disk, and
    the staged diff of a path is looked up in a table. *)
Definition tableWorld (diffs : list (jsstring * jsstring)) : World :=
  {| statSize := fun _ => Ok 100;
     execSync := fun cmd =>
       match find (fun fd => bool_decide (diffCommand (fst fd) = cmd)) diffs with
       | Some fd => Ok (snd fd)
       | None => Throw (js "Command failed")
       end |}.

Definition text (n : Z) : jsstring := repeat 120%N (Z.to_nat n).

Definition fiveFiles : list (jsstring * jsstring) :=
  [(js "a.txt", text 30000); (js "b.txt", text 30000); (js "c.txt", text 30000);
   (js "d.txt", text 20000); (js "e.txt", text 5000)].

(** A world in which nothing is on disk (every staged path is a deletion). *)
Definition deletedWorld : World :=
  {| statSize := fun _ => Throw (js "ENOENT: no such file or directory");
     execSync := fun _ => Ok [] |}.

(** Case analysis on the comparisons with the two caps. *)
Ltac cap_cases :=
  repeat match goal with
         | |- context [?a >? ?b] => destruct (Z.gtb_spec a b)
         | |- context [?a >=? ?b] => destruct (Z.geb_spec a b)
         end;
  unfold MAX_FILE_SIZE, MAX_TOTAL_SIZE in *; try lia; try reflexivity.

End Collector.

(** ** src/config.js *)

Module Config.

Definition IGNORE_PATTERNS : list jsstring :=
  [js "package-lock.json"; js "yarn.lock"; js "pnpm-lock.yaml"; js "dist";
   js "build"; js ".next"; js "node_modules"; js ".git"].

Definition BINARY_EXTENSIONS : list jsstring :=
  [js ".png"; js ".jpg"; js ".jpeg"; js ".gif"; js ".ico"; js ".pdf";
   js ".zip"; js ".tar"; js ".gz"; js ".mp3"; js ".mp4"; js ".mov";
   js ".woff"; js ".woff2"; js ".ttf"; js ".eot"].

End Config.

(** ** The file system *)

Module Fs.

(** A file has a content, and may be unreadable for the process. *)
Record file := { content : jsstring; readable : bool }.

(** The files on disk, by path. *)
Abbreviation t := (gmap jsstring file).

Definition existsSync (fs : t) (p : jsstring) : bool :=
  match fs !! p with
  | Some _ => true
  | None => false
  end.

(** [fs.readFileSync(p, "utf-8")] *)
Definition readFileSync (fs : t) (p : jsstring) : result jsstring :=
  match fs !! p with
  | Some f =>
      if readable f then Ok (content f)
      else Throw (js "EACCES: permission denied")
  | None => Throw (js "ENOENT: no such file or directory")
  end.

(** [fs.writeFileSync(p, data)]: creates the file or replaces its content. *)
Definition writeFileSync (fs : t) (p data : jsstring) : t :=
  <[p := {| content := data;
            readable := match fs !! p with
                        | Some f => readable f
                        | None => true
                        end |}]> fs.

(** [fs.unlinkSync(p)] *)
Definition unlinkSync (fs : t) (p : jsstring) : result t :=
  match fs !! p with
  | Some _ => Ok (delete p fs)
  | None => Throw (js "ENOENT: no such file or directory")
  end.

(** What the process inherits from its environment: the working directory,
    the EDITOR variable, and what running a program does to the files.
    [spawnSync] returns when the child has ended, however it ended (a
    program that cannot be started is reported in the returned object),
    and throws when the call itself is refused. *)
Record Os := {
  cwd : jsstring;
  EDITOR : option jsstring;
  spawnSync : jsstring -> list jsstring -> t -> result t }.

(** [path.join(dir, name)] for a normalized directory and a file name. *)
Definition pathJoin (dir name : jsstring) : jsstring :=
  match rev dir with
  | 47%N :: _ => dir ++ name
  | _ => dir ++ [47%N] ++ name
  end.

End Fs.

(** ** src/git.js *)

Module Git.

(** The command line [git diff --staged -- "<filePath>"]. *)
Definition diffCommand (filePath : jsstring) : jsstring :=
  js "git diff --staged -- " ++ [DQUOTE] ++ filePath ++ [DQUOTE].

(** [getFileDiff] of src/git.js returns the text that goes into the
    prompt: the diff, or a parenthesised note. *)
Definition getFileDiff (W : World) (filePath : jsstring) : jsstring :=
  let ext := toLowerCase (extname filePath) in
  if arrayIncludes Config.BINARY_EXTENSIONS ext
  then js "(Binary file: " ++ filePath ++ js ")"
  else if existsb (fun p => includes filePath p) Config.IGNORE_PATTERNS
  then js "(Ignored file: " ++ filePath ++ js ")"
  else match execSync W (diffCommand filePath) with
       | Ok diff =>
           if truthy diff then diff
           else js "(No content change or new empty file: " ++ filePath ++ js ")"
       | Throw message =>
           js "(Error reading diff for " ++ filePath ++ js ": " ++ message ++ js ")"
       end.

(** [getCommentSyntax]: the comment line for a suggestion, by extension. *)
Definition getCommentSyntax (filePath message : jsstring) : jsstring :=
  let ext := toLowerCase (extname filePath) in
  let content := js "TODO: [AI] " ++ message in
  if arrayIncludes [js ".yml"; js ".yaml"; js ".py"; js ".sh"; js ".rb";
                    js ".dockerfile"; js ".toml"] ext
  then js "# " ++ content
  else if arrayIncludes [js ".css"; js ".scss"; js ".less"; js ".saas"] ext
  then js "/* " ++ content ++ js " */"
  else if arrayIncludes [js ".html"; js ".xml"; js ".md"; js ".jsx"; js ".tsx"] ext
          && bool_decide (ext = js ".md")
  then js "<!-- " ++ content ++ js " -->"
  else js "// " ++ content.

(** [editCommitMessage]: the message goes through a temporary file and
    the user's editor. The result is the returned message and the files
    left on disk; the line that [console.error] prints in the [catch] is
    left out. The write that opens the function stands before the [try]:
    here the directory accepts it, and the call in which it throws is in
    the loop of the command-line tool ([Cli.turn]). *)
Definition tempFile (os : Fs.Os) : jsstring :=
  Fs.pathJoin (Fs.cwd os) (js ".COMMIT_EDITMSG_TEMP").

(** [process.env.EDITOR || "vim"] *)
Definition editorOf (os : Fs.Os) : jsstring :=
  match Fs.EDITOR os with
  | Some e => if truthy e then e else js "vim"
  | None => js "vim"
  end.

Definition editCommitMessage (os : Fs.Os) (fs : Fs.t) (initialMessage : jsstring)
  : jsstring * Fs.t :=
  let fs1 := Fs.writeFileSync fs (tempFile os) initialMessage in
  match Fs.spawnSync os (editorOf os) [tempFile os] fs1 with
  | Throw _ => (initialMessage, fs1)
  | Ok fs2 =>
      if Fs.existsSync fs2 (tempFile os) then
        match Fs.readFileSync fs2 (tempFile os) with
        | Throw _ => (initialMessage, fs2)
        | Ok raw =>
            let newMessage := trim raw in
            match Fs.unlinkSync fs2 (tempFile os) with
            | Throw _ => (initialMessage, fs2)
            | Ok fs3 => (newMessage, fs3)
            end
        end
      else (initialMessage, fs2)
  end.

(** Editors for the examples. [typingEditor] saves a new text;
    [lockingEditor] is a program that takes away the read permission of
    the file it is given; [refusedSpawn] is a call that [spawnSync]
    rejects. *)
Definition osWith (spawn : jsstring -> list jsstring -> Fs.t -> result Fs.t) : Fs.Os :=
  {| Fs.cwd := js "/repo"; Fs.EDITOR := None; Fs.spawnSync := spawn |}.

Definition typingEditor (newText : jsstring) : Fs.Os :=
  osWith (fun _ args fs =>
            match args with
            | [p] => Ok (Fs.writeFileSync fs p newText)
            | _ => Ok fs
            end).

Definition lockingEditor : Fs.Os :=
  osWith (fun _ args fs =>
            match args with
            | [p] => Ok (alter (fun f => {| Fs.content := Fs.content f;
                                            Fs.readable := false |}) p fs)
            | _ => Ok fs
            end).

Definition refusedSpawn : Fs.Os :=
  osWith (fun _ _ _ => Throw (js "The argument 'file' is invalid")).

End Git.

(** ** bin/commit-cat.mjs *)

Module Cli.

(** *** The display of a failed request *)

(** The text that opens the structured detail of a transport error: an
    opening bracket and brace followed by the quoted key @type. *)
Definition TYPE_MARK : jsstring := js "[{" ++ [DQUOTE] ++ js "@type" ++ [DQUOTE].

Definition RATE_LIMIT_HEAD : jsstring := js "[429 Too Many Requests]".

(** The lookahead of the first pattern: optional white space, then the
    mark. The mark does not start with white space, so skipping all of
    the white space is the only way for it to match. *)
Definition detailAhead (s : jsstring) : bool := startsWith TYPE_MARK (trimStart s).

(** The lazy [.*?] in front of the lookahead: the shortest stretch after
    which the lookahead holds. The [s] flag lets the dot match any unit. *)
Fixpoint lazyUntilDetail (s : jsstring) : option jsstring :=
  if detailAhead s then Some []
  else match s with
       | [] => None
       | c :: s' =>
           match lazyUntilDetail s' with
           | Some cap => Some (c :: cap)
           | None => None
           end
       end.

(** The first pattern tried at the start of [s]; the result is group 1. *)
Definition rateLimitAt (s : jsstring) : option jsstring :=
  if startsWith RATE_LIMIT_HEAD s
  then match lazyUntilDetail (skipn (length RATE_LIMIT_HEAD) s) with
       | Some cap => Some (RATE_LIMIT_HEAD ++ cap)
       | None => None
       end
  else None.

(** [originalMsg.match(...)]: the leftmost position where the pattern
    matches. *)
Fixpoint rateLimitMatch (s : jsstring) : option jsstring :=
  match rateLimitAt s with
  | Some cap => Some cap
  | None =>
      match s with
      | [] => None
      | _ :: s' => rateLimitMatch s'
      end
  end.

Definition isDigit (c : N) : bool := ((48 <=? c) && (c <=? 57))%N.

(** The stretch before the first closing bracket, and what follows it. *)
Fixpoint untilBracket (s : jsstring) : option (jsstring * jsstring) :=
  match s with
  | [] => None
  | c :: s' =>
      if (c =? 93)%N then Some ([], s')
      else match untilBracket s' with
           | Some (mid, rest) => Some (c :: mid, rest)
           | None => None
           end
  end.

(** The lazy group before an opening bracket, a line feed or the end. *)
Fixpoint untilStop (s : jsstring) : jsstring :=
  match s with
  | [] => []
  | c :: s' => if (c =? 91)%N || (c =? NL)%N then [] else c :: untilStop s'
  end.

(** The second pattern tried at the start of [s]: a bracket, a status
    between 400 and 599, white space, anything up to the first closing
    bracket, then the lazy group. The result is the whole match. *)
Definition statusAt (s : jsstring) : option jsstring :=
  match s with
  | b :: d1 :: d2 :: d3 :: w :: rest =>
      if (b =? 91)%N && ((d1 =? 52)%N || (d1 =? 53)%N) && isDigit d2 && isDigit d3
         && isWhiteSpace w
      then match untilBracket rest with
           | Some (mid, after) =>
               Some (b :: d1 :: d2 :: d3 :: w :: mid ++ [93%N] ++ untilStop after)
           | None => None
           end
      else None
  | _ => None
  end.

Fixpoint statusMatch (s : jsstring) : option jsstring :=
  match statusAt s with
  | Some m => Some m
  | None =>
      match s with
      | [] => None
      | _ :: s' => statusMatch s'
      end
  end.

(** [displayMsg], computed from [e.message || ""] in the catch block. *)
Definition displayMsg (originalMsg : jsstring) : jsstring :=
  if includes originalMsg (js "429") || includes originalMsg (js "Too Many Requests")
  then match rateLimitMatch originalMsg with
       | Some group1 => trim group1
       | None => trim (split_first TYPE_MARK originalMsg)
       end
  else match statusMatch originalMsg with
       | Some whole => trim whole
       | None => originalMsg
       end.

(** What [p.note] is given: [wrapText(displayMsg, 0, process)]. *)
Definition shownError (originalMsg : jsstring) (process : option Utils.Process)
  : jsstring :=
  Utils.wrapText (displayMsg originalMsg) (Some 0) process.

(** *** Findings and the suggestion injector *)

Record Finding := {
  message : jsstring;
  filePath : jsstring;
  lineNumber : option jsstring;
  contextLine : option jsstring }.

(** A field that is present and truthy. *)
Definition present (field : option jsstring) : option jsstring :=
  match field with
  | Some s => if truthy s then Some s else None
  | None => None
  end.

(** [lines.findIndex(pred)]; [None] stands for -1. *)
Fixpoint findIndex (pred : jsstring -> bool) (lines : list jsstring) : option nat :=
  match lines with
  | [] => None
  | l :: rest =>
      if pred l then Some O
      else match findIndex pred rest with
           | Some i => Some (S i)
           | None => None
           end
  end.

(** [lines.splice(idx, 0, line)] for an index inside the array. *)
Definition splice (lines : list jsstring) (idx : nat) (line : jsstring)
  : list jsstring :=
  firstn idx lines ++ line :: skipn idx lines.

(** [lines[l]]; [None] is undefined. *)
Definition lineAt (lines : list jsstring) (l : Z) : option jsstring :=
  if l <? 0 then None else nth_error lines (Z.to_nat l).

(** The first attempt: the context line. *)
Definition injectByContext (item : Finding) (lines : list jsstring) (todo : jsstring)
  : list jsstring * bool :=
  match present (contextLine item) with
  | Some ctx =>
      match findIndex (fun l => includes l (trim ctx)) lines with
      | Some lineIdx =>
          let indent := leadingWhiteSpace (nth lineIdx lines []) in
          (splice lines lineIdx (indent ++ todo), true)
      | None => (lines, false)
      end
  | None => (lines, false)
  end.

(** The second attempt, when the first did not inject: the line number. *)
Definition injectByNumber (item : Finding) (todo : jsstring)
           (sofar : list jsstring * bool) : list jsstring * bool :=
  let '(lines, injected) := sofar in
  if negb injected then
    match present (lineNumber item) with
    | Some number =>
        match parseInt number with
        | Some n =>
            let l := n - 1 in
            match lineAt lines l with
            | Some line =>
                if truthy line then (splice lines (Z.to_nat l) todo, true)
                else sofar
            | None => sofar
            end
        | None => sofar
        end
    | None => sofar
    end
  else sofar.

Definition inject (item : Finding) (lines : list jsstring) (todo : jsstring)
  : list jsstring * bool :=
  injectByNumber item todo (injectByContext item lines todo).

(** The body of [selected.forEach]: the files afterwards and [injected]. *)
Definition applySuggestion (fs : Fs.t) (item : Finding) : result (Fs.t * bool) :=
  if negb (Fs.existsSync fs (filePath item)) then Ok (fs, false)
  else
    match Fs.readFileSync fs (filePath item) with
    | Throw m => Throw m
    | Ok content =>
        let lines := split_nl content in
        let todo := Git.getCommentSyntax (filePath item) (message item) in
        let '(lines', injected) := inject item lines todo in
        if injected
        then Ok (Fs.writeFileSync fs (filePath item) (join_nl lines'), true)
        else Ok (fs, false)
    end.

(** The variables of one annotate round. *)
Record Round := {
  disk : Fs.t;
  appliedCount : Z;
  indicesToRemove : gset nat }.

Definition applyOne (pending : list Finding) (r : Round) (idx : nat) : result Round :=
  match pending !! idx with
  | None => Throw (js "Cannot read properties of undefined")
  | Some item =>
      match applySuggestion (disk r) item with
      | Throw m => Throw m
      | Ok (fs', true) =>
          Ok {| disk := fs'; appliedCount := appliedCount r + 1;
                indicesToRemove := {[idx]} ∪ indicesToRemove r |}
      | Ok (fs', false) =>
          Ok {| disk := fs'; appliedCount := appliedCount r;
                indicesToRemove := indicesToRemove r |}
      end
  end.

(** [selected.forEach(...)] *)
Fixpoint applySelected (pending : list Finding) (r : Round) (selected : list nat)
  : result Round :=
  match selected with
  | [] => Ok r
  | idx :: rest =>
      match applyOne pending r idx with
      | Throw m => Throw m
      | Ok r' => applySelected pending r' rest
      end
  end.

(** [list.filter((_, i) => !indicesToRemove.has(i))], counting from [i]. *)
Fixpoint pruneFrom {A : Type} (removed : gset nat) (i : nat) (l : list A) : list A :=
  match l with
  | [] => []
  | x :: l' =>
      if decide (i ∈ removed) then pruneFrom removed (S i) l'
      else x :: pruneFrom removed (S i) l'
  end.

Definition prune {A : Type} (removed : gset nat) (l : list A) : list A :=
  pruneFrom removed O l.

(** Whether the suggestion at [idx] gets applied from the state [r]. *)
Definition appliedAt (pending : list Finding) (r : Round) (idx : nat) : bool :=
  match pending !! idx with
  | Some item =>
      match applySuggestion (disk r) item with
      | Ok (_, injected) => injected
      | Throw _ => false
      end
  | None => false
  end.

(** The indices applied during [selected.forEach], one entry per
    application, in the order of the applications. *)
Fixpoint appliedLog (pending : list Finding) (r : Round) (selected : list nat)
  : list nat :=
  match selected with
  | [] => []
  | idx :: rest =>
      match applyOne pending r idx with
      | Throw _ => []
      | Ok r' =>
          if appliedAt pending r idx
          then idx :: appliedLog pending r' rest
          else appliedLog pending r' rest
      end
  end.

Definition freshRound (fs : Fs.t) : Round :=
  {| disk := fs; appliedCount := 0; indicesToRemove := ∅ |}.

(** The findings of a review, each tagged with its position in the
    response; the tag tells the findings apart across rounds. *)
Definition tagged (findings : list Finding) : list (nat * Finding) :=
  zip (seq 0 (length findings)) findings.

(** Successive annotate rounds of one run, each followed by the pruning
    of [review.suggestions]; the result lists the tags of the findings
    applied, one entry per application. *)
Fixpoint annotateRun (fs : Fs.t) (pending : list (nat * Finding))
         (rounds : list (list nat)) : result (list nat) :=
  match rounds with
  | [] => Ok []
  | selected :: rest =>
      match applySelected (pending.*2) (freshRound fs) selected with
      | Throw m => Throw m
      | Ok r =>
          let tags := omap (fun idx => fst <$> pending !! idx)
                           (appliedLog (pending.*2) (freshRound fs) selected) in
          match annotateRun (disk r) (prune (indicesToRemove r) pending) rest with
          | Throw m => Throw m
          | Ok log => Ok (tags ++ log)
          end
      end
  end.

(** Inputs used below. *)
Definition sourceFile (content : jsstring) : Fs.file :=
  {| Fs.content := content; Fs.readable := true |}.

Definition threeLines : jsstring :=
  js "function f() {" ++ [NL] ++ js "  return 1;" ++ [NL] ++ js "}".

Definition blankSecondLine : jsstring := js "a" ++ [NL; NL] ++ js "b".

Definition byContext : Finding :=
  {| message := js "name the constant"; filePath := js "f.js";
     lineNumber := Some (js "7"); contextLine := Some (js "return 1;") |}.

Definition byNumber : Finding :=
  {| message := js "name the constant"; filePath := js "f.js";
     lineNumber := Some (js "2"); contextLine := None |}.

(** *** The action loop *)

(** The answer to a prompt: a value, or the cancel symbol. *)
Inductive prompt (A : Type) :=
| Cancelled
| Answer (a : A).
Arguments Cancelled {A}.
Arguments Answer {A} a.

Inductive action := Commit | Edit | Issues | Cancel.

(** The state the loop carries from one menu to the next: the message,
    the pending suggestions, the working tree, and how many times
    [git add .] has run. *)
Record Session := {
  currentMessage : jsstring;
  suggestions : list Finding;
  tree : Fs.t;
  restaged : nat }.

(** What the user, git and the file system answer during one turn of the
    loop: the action chosen; whether [git commit] succeeds; whether the
    temporary file of the edit can be written ([fs.writeFileSync] stands
    before the [try] of [editCommitMessage], so its error is thrown to the
    loop); the suggestions selected; the answer to the closing question;
    and whether [git add .] succeeds ([execSync] is called outside any
    [try]). *)
Record Turn := {
  choice : prompt action;
  commitSucceeds : bool;
  tempWritable : bool;
  selection : prompt (list nat);
  commitNow : prompt bool;
  restageSucceeds : bool }.

(** How a turn ends: the menu is shown again, the process exits, or an
    error is thrown out of the loop (and of [main], whose caller prints
    it). *)
Inductive outcome :=
| Menu (s : Session)
| Exit (code : Z) (s : Session)
| Uncaught (message : jsstring).

Definition WRITE_FAILED : jsstring := js "EACCES: permission denied, open".
Definition RESTAGE_FAILED : jsstring := js "Command failed: git add .".

(** The session once the selected suggestions were applied and the
    applied ones pruned, and once [git add .] has run. *)
Definition afterApply (s : Session) (r : Round) : Session :=
  {| currentMessage := currentMessage s;
     suggestions := prune (indicesToRemove r) (suggestions s);
     tree := disk r;
     restaged := restaged s |}.

Definition afterRestage (s : Session) : Session :=
  {| currentMessage := currentMessage s;
     suggestions := suggestions s;
     tree := tree s;
     restaged := S (restaged s) |}.

(** The session after an edit whose temporary file was written. *)
Definition afterEdit (os : Fs.Os) (s : Session) : Session :=
  let '(m, fs') := Git.editCommitMessage os (tree s) (currentMessage s) in
  {| currentMessage := m; suggestions := suggestions s;
     tree := fs'; restaged := restaged s |}.

(** The options of [p.select], each with its [disabled] flag. *)
Definition menuOptions (s : Session) : list (action * bool) :=
  [(Commit, false); (Edit, false);
   (Issues, negb (0 <? len (suggestions s)));
   (Cancel, false)].

Definition selectable (s : Session) (a : action) : bool :=
  existsb (fun o => match fst o, a with
                    | Commit, Commit | Edit, Edit | Issues, Issues
                    | Cancel, Cancel => negb (snd o)
                    | _, _ => false
                    end) (menuOptions s).

(** The annotate branch once a selection has been made. *)
Definition annotate (s : Session) (selected : list nat) (commitNow : prompt bool)
    (restageSucceeds : bool) : outcome :=
  if 0 <? len selected then
    match applySelected (suggestions s) (freshRound (tree s)) selected with
    | Throw m => Uncaught m
    | Ok r =>
        let s1 := afterApply s r in
        match commitNow with
        | Cancelled => Exit 0 s1
        | Answer true =>
            if restageSucceeds then Menu (afterRestage s1)
            else Uncaught RESTAGE_FAILED
        | Answer false => Exit 0 s1
        end
    end
  else Menu s.

(** One turn of [while (true)]. *)
Definition turn (os : Fs.Os) (s : Session) (t : Turn) : outcome :=
  match choice t with
  | Cancelled => Exit 0 s
  | Answer Cancel => Exit 0 s
  | Answer Commit => if commitSucceeds t then Exit 0 s else Exit 1 s
  | Answer Edit =>
      if tempWritable t then Menu (afterEdit os s)
      else Uncaught WRITE_FAILED
  | Answer Issues =>
      match selection t with
      | Cancelled => Exit 0 s
      | Answer selected =>
          annotate s selected (commitNow t) (restageSucceeds t)
      end
  end.

(** The loop, for as many turns as there are answers; it is back at the
    menu when the answers run out. *)
Fixpoint actionLoop (os : Fs.Os) (s : Session) (turns : list Turn) : outcome :=
  match turns with
  | [] => Menu s
  | t :: rest =>
      match turn os s t with
      | Menu s' => actionLoop os s' rest
      | stop => stop
      end
  end.

(** The turns after which the loop shows the menu again, unless the
    injector throws: an edit whose temporary file can be written, an
    annotate with an empty selection, and an annotate whose closing
    question is answered with yes and whose [git add .] succeeds. *)
Definition backToMenu (t : Turn) : bool :=
  match choice t with
  | Answer Edit => tempWritable t
  | Answer Issues =>
      match selection t with
      | Answer selected =>
          negb (0 <? len selected)
          || match commitNow t with
             | Answer true => restageSucceeds t
             | _ => false
             end
      | Cancelled => false
      end
  | _ => false
  end.

(** Inputs used below: a review with one suggestion on a three-line file,
    and a user who picks the annotate action, selects the suggestion and
    then answers the closing question. *)
Definition oneSuggestion : Session :=
  {| currentMessage := js "feat: add f";
     suggestions := [byContext];
     tree := {[ js "f.js" := sourceFile threeLines ]};
     restaged := 0 |}.

Definition annotateFirst (answer : prompt bool) : Turn :=
  {| choice := Answer Issues; commitSucceeds := true; tempWritable := true;
     selection := Answer [0%nat]; commitNow := answer;
     restageSucceeds := true |}.

Definition editTurn : Turn :=
  {| choice := Answer Edit; commitSucceeds := true; tempWritable := true;
     selection := Cancelled; commitNow := Cancelled;
     restageSucceeds := true |}.

End Cli.

(** ** src/ui.js: the banner *)

Module Title.

(** [cleanTitle]: every line of the art loses its trailing white space. *)
Definition cleanTitle (rawTitle : jsstring) : jsstring :=
  join_nl (map trimEnd (split_nl rawTitle)).

(** [Math.max(...lines.map((l) => l.length))]; [None] is the -Infinity
    of an empty array. *)
Definition maxLength (lines : list jsstring) : option Z :=
  fold_left (fun m l => Some (match m with
                              | Some x => Z.max x (len l)
                              | None => len l
                              end)) lines None.

(** What [printTitle] prints: the art, or the one-line fallback. *)
Inductive banner :=
| Fallback
| Art (title : jsstring).

(** [printTitle]: [titleFile] is the content of assets/title.txt when the
    file exists, [columns] is [process.stdout.columns] when it is defined;
    a comparison with an undefined width is false. *)
Definition printTitle (titleFile : option jsstring) (columns : option Z) : banner :=
  match titleFile with
  | Some raw =>
      let title := cleanTitle raw in
      match maxLength (split_nl title), columns with
      | Some titleWidth, Some cols =>
          if cols <? titleWidth + 4 then Fallback else Art title
      | _, _ => Art title
      end
  | None => Fallback
  end.

End Title.

(** ** src/ai.js: the review request *)

Module Ai.

Definition TICKS : jsstring := js "```".
Definition FENCE_OPEN : jsstring := js "```json" ++ [NL].
Definition FENCE_CLOSE : jsstring := [NL] ++ js "```".

(** [s.replace(/p1|p2|.../g, "")] for literal, non-empty alternatives:
    scanning from the left, the first alternative that matches at a
    position is removed and the scan goes on after it. [skip] counts the
    units of the current match that are still to be dropped. *)
Fixpoint removeAllFrom (alts : list jsstring) (s : jsstring) (skip : nat) : jsstring :=
  match s with
  | [] => []
  | c :: s' =>
      match skip with
      | S k => removeAllFrom alts s' k
      | O =>
          match find (fun p => startsWith p s) alts with
          | Some p => removeAllFrom alts s' (length p - 1)
          | None => c :: removeAllFrom alts s' 0
          end
      end
  end.

Definition removeAll (alts : list jsstring) (s : jsstring) : jsstring :=
  removeAllFrom alts s 0.

(** [cleanText]: the two [replace] calls and the [trim]. *)
Definition sanitize (text : jsstring) : jsstring :=
  trim (removeAll [TICKS] (removeAll [FENCE_OPEN; FENCE_CLOSE] text)).

(** The part of the raw text quoted in a parse error. *)
Definition snippet (cleanText : jsstring) : jsstring :=
  if len cleanText >? 200 then firstn (Z.to_nat 200) cleanText ++ js "..."
  else cleanText.

(** The prompt: the template around [diff.substring(0, 5000)]. *)
Definition PROMPT_HEAD : jsstring := [NL] ++ js "    **Git Diff:**" ++ [NL] ++ js "    ".
Definition PROMPT_TAIL : jsstring := [NL] ++ js "  ".

Definition promptOf (diff : jsstring) : jsstring :=
  PROMPT_HEAD ++ firstn (Z.to_nat 5000) diff ++ PROMPT_TAIL.

Section Request.

(** The parsed response is whatever [JSON.parse] makes of the text. *)
Variable Json : Type.

(** The collaborators of [generateReviewAndCommit]: the string table, the
    credential of the environment, the generation endpoint (called with
    the system instruction and the prompt, answering with the text of the
    response) and [JSON.parse]. *)
Record Service := {
  translate : jsstring -> list (jsstring * jsstring) -> jsstring;
  apiKey : option jsstring;
  generateContent : jsstring -> jsstring -> result jsstring;
  jsonParse : jsstring -> result Json }.

(** [generateReviewAndCommit]: the value returned ([None] is [null]) or
    the error thrown, with the prompts that were sent to the endpoint. *)
Definition generateReviewAndCommit (svc : Service) (diff : jsstring)
  : result (option Json) * list jsstring :=
  if negb (truthy diff) || (len (trim diff) =? 0) then (Ok None, [])
  else
    match Cli.present (apiKey svc) with
    | None => (Throw (translate svc (js "errors.no_api_key") []), [])
    | Some _ =>
        let systemPrompt := translate svc (js "prompts.system") [] in
        let prompt := promptOf diff in
        match generateContent svc systemPrompt prompt with
        | Throw m => (Throw m, [prompt])
        | Ok text =>
            if negb (truthy text)
            then (Throw (translate svc (js "errors.empty_response") []), [prompt])
            else
              let cleanText := sanitize text in
              match jsonParse svc cleanText with
              | Ok review => (Ok (Some review), [prompt])
              | Throw m =>
                  (Throw (translate svc (js "errors.json_parse") [(js "message", m)]
                            ++ [NL] ++ js "Raw: " ++ snippet cleanText),
                   [prompt])
              end
        end
    end.

End Request.

Arguments translate {Json} _ _ _.
Arguments apiKey {Json} _.
Arguments generateContent {Json} _ _ _.
Arguments jsonParse {Json} _ _.
Arguments generateReviewAndCommit {Json} svc diff.

(** A service for the examples: it answers every prompt with one text and
    parses nothing. *)
Definition answering (text : jsstring) : Service jsstring :=
  {| translate := fun key _ => key;
     apiKey := Some (js "key");
     generateContent := fun _ _ => Ok text;
     jsonParse := fun s => Throw (js "Unexpected token") |}.

End Ai.

(** ** The single-file tool, v2.0: the listing and the flags *)

Module CliV2.

(** [getStagedFiles] *)
Definition getStagedFiles (W : World) : list jsstring :=
  match execSync W (js "git diff --staged --name-only") with
  | Ok output => List.filter truthy (split_nl (trim output))
  | Throw _ => []
  end.

(** A name that git can list on a line of its own and that [trim] leaves
    alone: not empty, without line feed, and neither starting nor ending
    with white space. *)
Definition startsClean (n : jsstring) : bool :=
  match n with
  | c :: _ => negb (isWhiteSpace c)
  | [] => false
  end.

Definition plainName (n : jsstring) : bool :=
  startsClean n && startsClean (rev n) && forallb (fun c => negb (c =? NL)%N) n.

(** The two switches set by the argument loop of [main]. *)
Record Flags := { useFlash : bool; useKorean : bool }.

(** A group of one-letter flags: one dash, and more than two units. *)
Definition isCombined (arg : jsstring) : bool :=
  startsWith (js "-") arg && negb (startsWith (js "--") arg) && (len arg >? 2).

(** The body of [args.forEach]. *)
Definition argStep (fl : Flags) (arg : jsstring) : Flags :=
  let k1 := if bool_decide (arg = js "-k") || bool_decide (arg = js "--korean")
            then true else useKorean fl in
  let f1 := if bool_decide (arg = js "-f") || bool_decide (arg = js "--flash")
            then true else useFlash fl in
  let f2 := if bool_decide (arg = js "-l") || bool_decide (arg = js "--lite")
            then false else f1 in
  if isCombined arg then
    let k2 := if includes arg (js "k") then true else k1 in
    let f3 := if includes arg (js "f") then true else f2 in
    let f4 := if includes arg (js "l") then false else f3 in
    {| useFlash := f4; useKorean := k2 |}
  else {| useFlash := f2; useKorean := k1 |}.

Definition parseArgs (args : list jsstring) : Flags :=
  fold_left argStep args {| useFlash := false; useKorean := false |}.

(** An argument that asks for the Korean mode. *)
Definition asksKorean (arg : jsstring) : bool :=
  bool_decide (arg = js "-k") || bool_decide (arg = js "--korean")
  || (isCombined arg && includes arg (js "k")).

(** The test [!fullDiff.trim()] that ends the run with nothing to review. *)
Definition noValidChanges (c : Collector.Collected) : bool :=
  negb (truthy (trim (Collector.fullDiff c))).

End CliV2.

(** ** bin/commit-cat.mjs: the start of [main] *)

Module Main.

(** The payload loop: a header and the note or diff of every staged name
    that is not empty. *)
Definition diffEntry (W : World) (file : jsstring) : jsstring :=
  js "File: " ++ file ++ [NL] ++ Git.getFileDiff W file ++ [NL; NL].

Definition buildDiffFrom (W : World) (fullDiff : jsstring) (stagedFiles : list jsstring)
  : jsstring :=
  fold_left (fun acc file => if truthy file then acc ++ diffEntry W file else acc)
            stagedFiles fullDiff.

Definition buildDiff (W : World) (stagedFiles : list jsstring) : jsstring :=
  buildDiffFrom W [] stagedFiles.

(** [s.slice(-k)] for [k >= 0]. *)
Definition sliceLast (k : Z) (s : jsstring) : jsstring :=
  if k =? 0 then s else skipn (Z.to_nat (len s - k)) s.

(** The header of an option of the multi-select: the file and line of the
    suggestion, cut on the left when it is longer than the room the
    terminal leaves; [columns] is [process.stdout.columns] when defined. *)
Definition fileStr (s : Cli.Finding) : jsstring :=
  Cli.filePath s ++ js ":"
    ++ match Cli.present (Cli.lineNumber s) with
       | Some n => n
       | None => js "?"
       end.

Definition optionHeader (s : Cli.Finding) (columns : option Z) : jsstring :=
  match columns with
  | Some cols =>
      let maxPrefix := Z.max 20 (cols - 15) in
      if len (fileStr s) >? maxPrefix
      then js "..." ++ sliceLast (maxPrefix - 3) (fileStr s)
      else fileStr s
  | None => fileStr s
  end.

(** The stage check. The result says whether the run goes on, and lists
    the git commands that were run, in order. *)
Inductive preflight :=
| Proceed
| Stop (code : Z).

Definition LIST_STAGED : jsstring := js "git diff --staged --name-only".
Definition STATUS : jsstring := js "git status --porcelain".
Definition ADD_ALL : jsstring := js "git add .".

Definition stageCheck (W : World) (confirm : Cli.prompt bool)
  : preflight * list jsstring :=
  match execSync W LIST_STAGED with
  | Throw _ => (Stop 1, [LIST_STAGED])
  | Ok staged =>
      if truthy (trim staged) then (Proceed, [LIST_STAGED])
      else
        match execSync W STATUS with
        | Throw _ => (Stop 1, [LIST_STAGED; STATUS])
        | Ok status =>
            if negb (truthy (trim status)) then (Stop 0, [LIST_STAGED; STATUS])
            else
              match confirm with
              | Cli.Cancelled => (Stop 0, [LIST_STAGED; STATUS])
              | Cli.Answer false => (Stop 0, [LIST_STAGED; STATUS])
              | Cli.Answer true =>
                  match execSync W ADD_ALL with
                  | Throw _ => (Stop 1, [LIST_STAGED; STATUS; ADD_ALL])
                  | Ok _ => (Proceed, [LIST_STAGED; STATUS; ADD_ALL])
                  end
              end
        end
  end.

(** The start of [main]: the credential is looked at before anything
    else. *)
Definition startup (hasApiKey : bool) (W : World) (confirm : Cli.prompt bool)
  : preflight * list jsstring :=
  if hasApiKey then stageCheck W confirm else (Stop 1, []).

(** A repository for the examples: nothing staged, changes in the tree. *)
Definition dirtyTree : World :=
  {| statSize := fun _ => Ok 100;
     execSync := fun cmd =>
       if bool_decide (cmd = STATUS) then Ok (js " M src/utils.js" ++ [NL])
       else Ok [] |}.

End Main.

(** ** Text without its line feeds *)

Module Text.


End Text.

(** * Properties *)

Import Utils.

(** ** Strings *)

Lemma split_nl_nonempty (s : jsstring) : split_nl s <> [].
Proof.
  destruct s as [|c s]; simpl; [discriminate|].
  destruct (c =? NL)%N; [discriminate|].
  destruct (split_nl s); discriminate.
Qed.

Lemma split_nl_noNL (s : jsstring) : Forall noNL (split_nl s).
Proof.
  induction s as [|c s IH]; simpl.
  - constructor; [intros []|constructor].
  - destruct (N.eqb_spec c NL) as [->|Hne].
    + constructor; [intros []|exact IH].
    + destruct (split_nl s) as [|l ls].
      * constructor; [|constructor]. intros [H|[]]. congruence.
      * inversion IH as [|? ? Hl Hls]; subst. constructor; [|exact Hls].
        intros [H|H]; [congruence|exact (Hl H)].
Qed.

Lemma split_nl_app_noNL (l rest : jsstring) :
  noNL l -> split_nl (l ++ NL :: rest) = l :: split_nl rest.
Proof.
  induction l as [|c l IH]; intros Hl; simpl.
  - reflexivity.
  - destruct (N.eqb_spec c NL) as [->|Hne].
    + exfalso. apply Hl. now left.
    + rewrite IH; [reflexivity|]. intros H. apply Hl. now right.
Qed.

Lemma split_nl_single (l : jsstring) : noNL l -> split_nl l = [l].
Proof.
  induction l as [|c l IH]; intros Hl; simpl; [reflexivity|].
  destruct (N.eqb_spec c NL) as [->|Hne].
  - exfalso. apply Hl. now left.
  - rewrite IH; [reflexivity|]. intros H. apply Hl. now right.
Qed.

(** Splitting what was joined gives the lines back. *)
Lemma split_join_nl (ls : list jsstring) :
  ls <> [] -> Forall noNL ls -> split_nl (join_nl ls) = ls.
Proof.
  induction ls as [|l ls IH]; intros Hne Hall; [congruence|].
  inversion Hall as [|? ? Hl Hls]; subst.
  destruct ls as [|l' ls'].
  - simpl. now apply split_nl_single.
  - change (join_nl (l :: l' :: ls')) with (l ++ NL :: join_nl (l' :: ls')).
    rewrite split_nl_app_noNL by assumption.
    rewrite IH; [reflexivity|discriminate|assumption].
Qed.

Lemma join_split_nl (s : jsstring) : join_nl (split_nl s) = s.
Proof.
  induction s as [|c s IH]; simpl; [reflexivity|].
  destruct (N.eqb_spec c NL) as [->|Hne].
  - pose proof (split_nl_nonempty s) as Hn.
    destruct (split_nl s) as [|l ls]; [congruence|].
    change (join_nl ([] :: l :: ls)) with ([] ++ NL :: join_nl (l :: ls)).
    simpl. simpl in IH. now rewrite IH.
  - pose proof (split_nl_nonempty s) as Hn.
    destruct (split_nl s) as [|l ls]; [congruence|].
    destruct ls as [|l' ls']; simpl in *; now rewrite <- IH.
Qed.

(** The string iterator only cuts the string into pieces. *)
Lemma chars_concat (s : jsstring) : concat (chars s) = s.
Proof.
  assert (H : forall n (s : jsstring), (length s <= n)%nat -> concat (chars s) = s).
  { induction n as [|n IH]; intros [|c [|d s']] Hlen; simpl in *;
      try reflexivity; try lia.
    destruct (isHighSurrogate c && isLowSurrogate d); simpl.
    - f_equal. f_equal. apply IH. lia.
    - f_equal. apply (IH (d :: s')). simpl. lia. }
  apply (H (length s)). lia.
Qed.

Lemma chars_ascii (s : jsstring) :
  Forall isAscii s -> chars s = map (fun c => [c]) s.
Proof.
  induction s as [|c s IH]; intros Hall; [reflexivity|].
  inversion Hall as [|? ? Hc Hs]; subst.
  destruct s as [|d s']; [reflexivity|].
  cbn [chars].
  assert (isHighSurrogate c = false) as ->.
  { unfold isHighSurrogate, isAscii in *.
    apply andb_false_intro1. apply N.leb_gt. lia. }
  cbn [andb map]. f_equal. exact (IH Hs).
Qed.

Lemma split_nl_ascii (s : jsstring) :
  Forall isAscii s -> Forall (Forall isAscii) (split_nl s).
Proof.
  induction s as [|c s IH]; intros Hall; simpl.
  - repeat constructor.
  - inversion Hall as [|? ? Hc Hs]; subst. specialize (IH Hs).
    destruct (c =? NL)%N.
    + constructor; [constructor|exact IH].
    + destruct (split_nl s) as [|l ls]; [repeat constructor; assumption|].
      inversion IH; subst. constructor; [constructor|]; assumption.
Qed.


(** ** The text layout utility *)

Lemma getVisualWidth_fold (s : jsstring) (acc : Z) :
  fold_left (fun width code => width + (if (255 <? code)%N then 2 else 1)) s acc
  = acc + getVisualWidth s.
Proof.
  unfold getVisualWidth. revert acc.
  induction s as [|c s IH]; intros acc; simpl; [lia|].
  rewrite (IH (acc + _)), (IH (0 + _)). lia.
Qed.

Lemma getVisualWidth_cons (c : N) (s : jsstring) :
  getVisualWidth (c :: s) = unitWidth c + getVisualWidth s.
Proof.
  unfold getVisualWidth at 1. simpl. rewrite getVisualWidth_fold.
  unfold unitWidth. lia.
Qed.

Lemma getVisualWidth_app (a b : jsstring) :
  getVisualWidth (a ++ b) = getVisualWidth a + getVisualWidth b.
Proof.
  induction a as [|c a IH]; simpl; [reflexivity|].
  rewrite !getVisualWidth_cons, IH. lia.
Qed.

Lemma getVisualWidth_units (s : jsstring) :
  getVisualWidth s = sumZ (map unitWidth s).
Proof.
  induction s as [|c s IH]; [reflexivity|].
  rewrite getVisualWidth_cons, IH. reflexivity.
Qed.

Lemma unitWidth_pos (c : N) : 1 <= unitWidth c <= 2.
Proof. unfold unitWidth. destruct (255 <? c)%N; lia. Qed.

Lemma getVisualWidth_nonneg (s : jsstring) : 0 <= getVisualWidth s.
Proof.
  induction s as [|c s IH]; [reflexivity|].
  rewrite getVisualWidth_cons. pose proof (unitWidth_pos c). lia.
Qed.

Lemma getVisualWidth_ascii (s : jsstring) :
  Forall isAscii s -> getVisualWidth s = len s.
Proof.
  unfold len. induction 1 as [|c s Hc _ IH]; [reflexivity|].
  rewrite getVisualWidth_cons, IH. unfold unitWidth, isAscii in *.
  destruct (N.ltb_spec 255 c); simpl length; lia.
Qed.

(** The two widths printed by the script that exercises the layout
    functions: a Hangul syllable takes two columns, a Latin letter one. *)
Lemma getVisualWidth_examples :
  getVisualWidth HANGUL_HAN = 2 /\ getVisualWidth (js "A") = 1.
Proof. split; reflexivity. Qed.

(** The lines of a paragraph, put end to end, are the paragraph. *)
Lemma wrapChars_concat (limit : Z) (cs : list jsstring) (cur : jsstring) (w : Z) :
  concat (wrapChars limit cs cur w) = cur ++ concat cs.
Proof.
  revert cur w. induction cs as [|ch cs IH]; intros cur w; simpl.
  - reflexivity.
  - destruct (w + getVisualWidth ch >? limit); simpl; rewrite IH.
    + reflexivity.
    + now rewrite <- app_assoc.
Qed.

Lemma wrapChars_nonempty (limit : Z) (cs : list jsstring) (cur : jsstring) (w : Z) :
  wrapChars limit cs cur w <> [].
Proof.
  revert cur w. induction cs as [|ch cs IH]; intros cur w; simpl; [discriminate|].
  destruct (w + getVisualWidth ch >? limit); [discriminate|apply IH].
Qed.

(** The loop invariant of [wrapText]: [currentWidth] is the width of
    [currentLine] and does not exceed the limit, as long as no single
    character is wider than the limit. *)
Lemma wrapChars_width (limit : Z) (cs : list jsstring) (cur : jsstring) (w : Z) :
  w = getVisualWidth cur -> w <= limit ->
  Forall (fun ch => getVisualWidth ch <= limit) cs ->
  Forall (fun l => getVisualWidth l <= limit) (wrapChars limit cs cur w).
Proof.
  revert cur w. induction cs as [|ch cs IH]; intros cur w Hw Hle Hcs; simpl.
  - constructor; [lia|constructor].
  - inversion Hcs as [|? ? Hch Hrest]; subst.
    destruct (Z.gtb_spec (getVisualWidth cur + getVisualWidth ch) limit).
    + constructor; [lia|]. apply IH; [reflexivity|assumption|assumption].
    + apply IH; [now rewrite getVisualWidth_app|lia|assumption].
Qed.

Lemma noNL_concat_elem (ls : list jsstring) :
  noNL (concat ls) -> Forall noNL ls.
Proof.
  unfold noNL. induction ls as [|l ls IH]; intros H; constructor.
  - intros Hin. apply H. simpl. apply in_or_app. now left.
  - apply IH. intros Hin. apply H. simpl. apply in_or_app. now right.
Qed.

Lemma wrapParagraph_noNL (limit : Z) (p : jsstring) :
  noNL p -> Forall noNL (wrapParagraph limit p).
Proof.
  intros Hp. apply noNL_concat_elem. unfold wrapParagraph.
  rewrite wrapChars_concat. simpl. now rewrite chars_concat.
Qed.

Lemma wrapLines_noNL (text : jsstring) (mw : option Z) (pr : option Process) :
  Forall noNL (wrapLines text mw pr).
Proof.
  unfold wrapLines. generalize (split_nl_noNL text).
  induction 1 as [|p ps Hp _ IH]; simpl; [constructor|].
  apply Forall_app. split; [now apply wrapParagraph_noNL|exact IH].
Qed.

Lemma wrapLines_nonempty (text : jsstring) (mw : option Z) (pr : option Process) :
  wrapLines text mw pr <> [].
Proof.
  unfold wrapLines. pose proof (split_nl_nonempty text) as Hn.
  destruct (split_nl text) as [|p ps]; [congruence|]. simpl.
  unfold wrapParagraph. intros H. apply app_eq_nil in H as [H _].
  revert H. apply wrapChars_nonempty.
Qed.

(** The lines of the returned string are the lines the loop pushed. *)
Lemma wrapText_lines (text : jsstring) (mw : option Z) (pr : option Process) :
  truthy text = true ->
  split_nl (wrapText text mw pr) = wrapLines text mw pr.
Proof.
  intros Ht. unfold wrapText. rewrite Ht.
  apply split_join_nl; [apply wrapLines_nonempty|apply wrapLines_noNL].
Qed.

Lemma wrapLines_width (text : jsstring) (mw : option Z) (pr : option Process) :
  Forall (fun p => Forall (fun ch => getVisualWidth ch <= wrapLimit mw pr) (chars p))
         (split_nl text) ->
  0 <= wrapLimit mw pr ->
  Forall (fun l => getVisualWidth l <= wrapLimit mw pr) (wrapLines text mw pr).
Proof.
  unfold wrapLines. intros Hall Hpos.
  induction Hall as [|p ps Hp _ IH]; simpl; [constructor|].
  apply Forall_app. split; [|exact IH].
  unfold wrapParagraph. apply wrapChars_width; auto.
Qed.

Lemma wrapLimit_explicit (L : Z) (pr : option Process) :
  L <> 0 -> wrapLimit (Some L) pr = L.
Proof. intros H. unfold wrapLimit. destruct (Z.eqb_spec L 0); congruence. Qed.

Lemma ascii_chars_width (p : jsstring) :
  Forall isAscii p -> Forall (fun ch => getVisualWidth ch = 1) (chars p).
Proof.
  intros Hp. rewrite chars_ascii by assumption.
  induction Hp as [|c p Hc _ IH]; simpl; constructor; [|exact IH].
  rewrite getVisualWidth_ascii; [reflexivity|]. now constructor.
Qed.

Lemma wrapText_ascii_width (s : jsstring) (L : Z) (pr : option Process) :
  Forall isAscii s -> 0 < L ->
  Forall (fun line => getVisualWidth line <= L) (split_nl (wrapText s (Some L) pr)).
Proof.
  intros Hs HL.
  destruct (truthy s) eqn:Ht.
  - rewrite wrapText_lines by assumption.
    pose proof (wrapLines_width s (Some L) pr) as H.
    rewrite wrapLimit_explicit in H by lia. apply H; [|lia].
    eapply List.Forall_impl; [|apply split_nl_ascii, Hs].
    intros p Hp. cbn beta in Hp.
    eapply List.Forall_impl; [|apply ascii_chars_width, Hp].
    intros ch Hch. cbn beta in Hch. lia.
  - unfold wrapText. rewrite Ht. simpl. constructor; [|constructor].
    change (0 <= L). lia.
Qed.

(** What the string iterator yields: single units and surrogate pairs. *)
Lemma chars_shape (s ch : jsstring) :
  In ch (chars s) ->
  (exists c, ch = [c]) \/
  (exists h l, ch = [h; l] /\ isHighSurrogate h = true /\ isLowSurrogate l = true).
Proof.
  assert (H : forall n (s : jsstring), (length s <= n)%nat -> In ch (chars s) ->
              (exists c, ch = [c]) \/
              (exists h l, ch = [h; l] /\ isHighSurrogate h = true
                           /\ isLowSurrogate l = true)).
  { induction n as [|n IH]; intros [|c [|d s']] Hlen Hin; simpl in *;
      try contradiction; try lia.
    - destruct Hin as [<-|[]]. left. now exists c.
    - destruct (isHighSurrogate c && isLowSurrogate d) eqn:E.
      + destruct Hin as [<-|Hin].
        * right. exists c, d. apply andb_true_iff in E. tauto.
        * apply (IH s'); [lia|exact Hin].
      + destruct Hin as [<-|Hin].
        * left. now exists c.
        * apply (IH (d :: s')); [simpl; lia|exact Hin]. }
  apply (H (length s)). lia.
Qed.

Lemma surrogate_pair_width (h l : N) :
  isHighSurrogate h = true -> isLowSurrogate l = true ->
  getVisualWidth [h; l] = 4.
Proof.
  unfold isHighSurrogate, isLowSurrogate. intros Hh Hl.
  apply andb_true_iff in Hh as [Hh _]. apply andb_true_iff in Hl as [Hl _].
  apply N.leb_le in Hh, Hl.
  rewrite !getVisualWidth_cons. unfold unitWidth.
  destruct (N.ltb_spec 255 h); [|lia]. destruct (N.ltb_spec 255 l); [|lia].
  reflexivity.
Qed.

(** C4: the width computation misses the claim on a character outside
    the Basic Multilingual Plane. The cat emoji U+1F431 is one character
    for the iterator of [wrapText], which hands it whole to
    [getVisualWidth], and its code point exceeds 255, so its width should
    be 2; [getVisualWidth] walks the string by UTF-16 unit, finds the two
    surrogates and counts 4. At a limit of 4, [wrapText] therefore breaks
    between two such characters, which would fit. The wide character
    U+D55C, a single unit, shows what is meant: it counts 2 and two of
    them stay on one line. *)
Theorem wrapText_astral_character_width :
  chars CAT = [CAT]
  /\ (255 < codePoint CAT)%N
  /\ getVisualWidth CAT = 4
  /\ wrapText (CAT ++ CAT) (Some 4) termUnknown = CAT ++ [NL] ++ CAT
  /\ chars HANGUL_HAN = [HANGUL_HAN]
  /\ (255 < codePoint HANGUL_HAN)%N
  /\ getVisualWidth HANGUL_HAN = 2
  /\ wrapText (HANGUL_HAN ++ HANGUL_HAN) (Some 4) termUnknown
     = HANGUL_HAN ++ HANGUL_HAN
  /\ ~ (forall ch, In ch (chars CAT) -> (255 < codePoint ch)%N ->
                   getVisualWidth ch = 2).
Proof.
  repeat split; try reflexivity.
  intros H. specialize (H CAT (or_introl eq_refl) eq_refl). discriminate H.
Qed.

(** What holds of the bound and of the width: on an ASCII-only string and
    a positive explicit limit [L], every line of the text returned by
    [wrapText] has visual width at most [L]; the width of a string is the
    sum over its UTF-16 code units of 2 for a unit above 255 and 1 for any
    other; so a character that is a single code unit counts 2 above 255
    and 1 otherwise, and the two units of a surrogate pair count 2
    each. *)
Theorem wrapText_width_bound (s : jsstring) (L : Z) (pr : option Process) :
  Forall isAscii s -> 0 < L ->
  Forall (fun line => getVisualWidth line <= L) (split_nl (wrapText s (Some L) pr))
  /\ (forall str, getVisualWidth str
                  = sumZ (map (fun code => if (255 <? code)%N then 2 else 1) str))
  /\ (forall t ch, In ch (chars t) ->
        (exists c, ch = [c] /\
                   getVisualWidth ch = if (255 <? codePoint ch)%N then 2 else 1)
        \/ (exists h l, ch = [h; l] /\ isHighSurrogate h = true
                        /\ isLowSurrogate l = true /\ getVisualWidth ch = 4)).
Proof.
  intros Hs HL. split; [now apply wrapText_ascii_width|]. split.
  - intros str. apply getVisualWidth_units.
  - intros t ch Hin. destruct (chars_shape t ch Hin) as [[c ->]|(h & l & -> & Hh & Hl)].
    + left. exists c. split; [reflexivity|].
      rewrite getVisualWidth_cons. unfold unitWidth. cbn [codePoint].
      change (getVisualWidth []) with 0. destruct (255 <? c)%N; reflexivity.
    + right. exists h, l. repeat split; auto. now apply surrogate_pair_width.
Qed.

Lemma wrapText_width_bound_witness :
  Forall (fun line => getVisualWidth line <= 5)
         (split_nl (wrapText (js "hello wide world") (Some 5) termUnknown)).
Proof.
  refine (proj1 (wrapText_width_bound (js "hello wide world") 5 termUnknown _ _)).
  - unfold isAscii. repeat constructor.
  - lia.
Defined.

(** ** The default limit *)

Lemma terminalColumns_unknown (pr : option Process) :
  columnsUnknown pr -> terminalColumns pr = 80.
Proof.
  destruct pr as [[[[[c|]]|]]|]; simpl; try reflexivity.
  intros ->. reflexivity.
Qed.

(** C9, the claim as written, fails: with no limit given and no terminal
    dimensions the limit is 68, not 80; a line of 69 letters is cut after
    the 68th. *)
Lemma wrapLimit_fallback_counterexample :
  wrapLimit None termUnknown = 68 /\
  wrapLimit None termUnknown <> 80 /\
  wrapText (repeat 97%N 69) None termUnknown
  = repeat 97%N 68 ++ [NL] ++ [97%N].
Proof.
  split; [reflexivity|]. split; [discriminate|]. vm_compute. reflexivity.
Qed.

(** C9 (amended): when no limit is given ([maxWidth] omitted or zero) the
    limit is [min(80, terminalColumns - 12)]; when the terminal dimensions
    are unknown [terminalColumns] falls back to 80, so the limit is 68. *)
Theorem wrapLimit_default (mw : option Z) (pr : option Process) :
  mw = None \/ mw = Some 0 ->
  wrapLimit mw pr = Z.min 80 (terminalColumns pr - 12)
  /\ (columnsUnknown pr -> terminalColumns pr = 80 /\ wrapLimit mw pr = 68).
Proof.
  intros Hmw.
  assert (E : wrapLimit mw pr = Z.min 80 (terminalColumns pr - 12)).
  { destruct Hmw as [-> | ->]; reflexivity. }
  split; [exact E|]. intros Hu. rewrite E.
  rewrite (terminalColumns_unknown pr Hu). split; reflexivity.
Qed.

Lemma wrapLimit_default_witness :
  wrapLimit None (term 100) = Z.min 80 (terminalColumns (term 100) - 12).
Proof.
  exact (proj1 (wrapLimit_default None (term 100) (or_introl eq_refl))).
Defined.

(** ** The boxed message *)

Lemma widestLine_fold (lines : list jsstring) (acc : Z) :
  acc <= fold_left (fun contentWidth l =>
                      let w := getVisualWidth l in
                      if w >? contentWidth then w else contentWidth) lines acc
  /\ Forall (fun l =>
               getVisualWidth l
               <= fold_left (fun contentWidth l =>
                               let w := getVisualWidth l in
                               if w >? contentWidth then w else contentWidth)
                            lines acc) lines.
Proof.
  revert acc. cbv zeta.
  induction lines as [|l lines IH]; intros acc; simpl.
  - split; [lia|constructor].
  - destruct (Z.gtb_spec (getVisualWidth l) acc) as [Hgt|Hle].
    + destruct (IH (getVisualWidth l)) as [Hacc Hall].
      split; [lia|]. constructor; [lia|exact Hall].
    + destruct (IH acc) as [Hacc Hall].
      split; [lia|]. constructor; [lia|exact Hall].
Qed.

Lemma widestLine_ge (lines : list jsstring) :
  Forall (fun l => getVisualWidth l <= widestLine lines) lines.
Proof. exact (proj2 (widestLine_fold lines 0)). Qed.

Lemma len_repeat_unit (c : N) (n : Z) : len (repeat_unit c n) = Z.max 0 n.
Proof. unfold len, repeat_unit. rewrite repeat_length. lia. Qed.

Lemma len_app (a b : jsstring) : len (a ++ b) = len a + len b.
Proof. unfold len. rewrite length_app. lia. Qed.

Lemma boxLines_fit (title text : jsstring) (pr : option Process) :
  Forall (fun l => getVisualWidth l + 2 <= boxWidth title text pr)
         (boxLines text pr).
Proof.
  unfold boxWidth, contentWidth.
  eapply List.Forall_impl; [|apply widestLine_ge].
  intros l Hl. cbn beta in Hl. lia.
Qed.

Lemma rowText_top (bw : Z) (title : jsstring) :
  rowText (topPieces bw title) = topWithTitle bw title.
Proof. unfold rowText, topWithTitle. simpl. reflexivity. Qed.

Lemma rowText_content (bw : Z) (line : jsstring) :
  rowText (contentPieces bw line) = contentRow bw line.
Proof. unfold rowText, contentRow. simpl. reflexivity. Qed.

Lemma rowText_bottom (bw : Z) : rowText (bottomPieces bw) = bottomBorder bw.
Proof. unfold rowText, bottomBorder. simpl. reflexivity. Qed.

(** The string [boxMessage] returns is the text of the rows. *)
Lemma boxMessage_rows (title text : jsstring) (pr : option Process) :
  boxMessage title text pr = join_nl (map rowText (boxRows title text pr)).
Proof.
  unfold boxMessage, boxOut, boxRows. cbv zeta.
  cbn [app map]. rewrite map_app, map_map. cbn [map].
  rewrite rowText_top, rowText_bottom.
  reflexivity.
Qed.

(** C10: the frame drawn by [boxMessage] is rectangular. The returned
    string is made of the top border with the title, one padded row per
    wrapped line and the bottom border; each of them is [boxWidth + 2]
    columns wide (one column per frame glyph, the title and the lines as
    [getVisualWidth] measures them); the number of dashes after the title
    and the padding of every row are not negative — whatever the title,
    also one wider than every line. *)
Theorem boxMessage_rectangular (title text : jsstring) (pr : option Process) :
  let bw := boxWidth title text pr in
  boxMessage title text pr = join_nl (map rowText (boxRows title text pr))
  /\ boxRows title text pr
     = topPieces bw title :: map (contentPieces bw) (boxLines text pr)
         ++ [bottomPieces bw]
  /\ Forall (fun row => rowWidth row = bw + 2) (boxRows title text pr)
  /\ 0 <= rightDashes bw title
  /\ Forall (fun line => 0 <= padding bw line) (boxLines text pr)
  /\ getVisualWidth title + 4 <= bw.
Proof.
  intros bw.
  assert (Ht : getVisualWidth title + 4 <= bw).
  { unfold bw, boxWidth, contentWidth. lia. }
  pose proof (boxLines_fit title text pr) as Hfit. fold bw in Hfit.
  pose proof (getVisualWidth_nonneg title) as Htitle.
  split; [apply boxMessage_rows|]. split; [reflexivity|].
  split; [|split; [unfold rightDashes; lia|split; [|exact Ht]]].
  - unfold boxRows. fold bw. simpl. constructor; [|apply Forall_app; split].
    + unfold rowWidth, topPieces. simpl. rewrite len_repeat_unit.
      unfold rightDashes, len. simpl. lia.
    + apply Forall_map. eapply List.Forall_impl; [|exact Hfit].
      intros l Hl. cbn beta in Hl. unfold rowWidth, contentPieces. simpl.
      rewrite len_repeat_unit. unfold padding, len. simpl. lia.
    + constructor; [|constructor]. unfold rowWidth, bottomPieces. simpl.
      rewrite len_repeat_unit. unfold len. simpl. lia.
  - eapply List.Forall_impl; [|exact Hfit].
    intros l Hl. cbn beta in Hl. unfold padding. lia.
Qed.

(** ** The diff collector *)

Import Collector.

Section CollectorInvariant.

Variable W : World.

Lemma step_verdict (st : Collected) (file : jsstring) :
  step W st file =
  match verdictAt W (totalSize st) file with
  | Skipped reason => pushSkipped st file reason
  | Included content =>
      {| fullDiff := fullDiff st ++ diffBlock file content;
         totalSize := totalSize st + len content;
         skippedFiles := skippedFiles st |}
  end.
Proof.
  unfold step, verdictAt.
  destruct (totalSize st >=? MAX_TOTAL_SIZE); [reflexivity|].
  destruct (getFileDiff W file) as [reason|content]; [reflexivity|].
  destruct (totalSize st + len content >? MAX_TOTAL_SIZE); reflexivity.
Qed.

Lemma step_totalSize (st : Collected) (file : jsstring) :
  totalSize (step W st file) = grow (totalSize st) (verdictAt W (totalSize st) file).
Proof.
  rewrite step_verdict. destruct (verdictAt W (totalSize st) file); reflexivity.
Qed.

(** What the loop leaves in its three variables, read off the trace. *)
Lemma collectFrom_trace (files : list jsstring) (st : Collected) :
  let tr := trace W (totalSize st) files in
  fullDiff (collectFrom W st files)
  = fullDiff st ++ concat (map (fun fc => diffBlock (fst fc) (snd fc)) (includedOf tr))
  /\ totalSize (collectFrom W st files)
     = totalSize st + sumZ (map (fun fc => len (snd fc)) (includedOf tr))
  /\ skippedFiles (collectFrom W st files)
     = skippedFiles st ++ map (fun fr => skipEntry (fst fr) (snd fr)) (skippedOf tr).
Proof.
  revert st. induction files as [|file files IH]; intros st; cbv zeta.
  - simpl. rewrite !app_nil_r. repeat split. lia.
  - change (collectFrom W st (file :: files))
      with (collectFrom W (step W st file) files).
    destruct (IH (step W st file)) as (Hd & Ht & Hs).
    rewrite Hd, Ht, Hs. clear IH Hd Ht Hs.
    rewrite step_totalSize. cbn [trace]. rewrite step_verdict.
    destruct (verdictAt W (totalSize st) file) as [reason|content];
      cbn [grow includedOf skippedOf flat_map snd fst app map concat sumZ fold_right
           fullDiff totalSize skippedFiles pushSkipped].
    + repeat split. now rewrite <- app_assoc.
    + repeat split; [now rewrite <- app_assoc | ]. unfold sumZ, includedOf. lia.
Qed.

Lemma trace_files (files : list jsstring) (total : Z) :
  map fst (trace W total files) = files.
Proof.
  revert total. induction files as [|f files IH]; intros total; simpl;
    [reflexivity|]. now rewrite IH.
Qed.

Lemma grow_le (total : Z) (file : jsstring) :
  total <= MAX_TOTAL_SIZE ->
  total <= grow total (verdictAt W total file) <= MAX_TOTAL_SIZE.
Proof.
  intros Hle. unfold verdictAt.
  destruct (total >=? MAX_TOTAL_SIZE); simpl; [lia|].
  destruct (getFileDiff W file) as [reason|content]; simpl; [lia|].
  destruct (Z.gtb_spec (total + len content) MAX_TOTAL_SIZE); simpl;
    unfold len in *; lia.
Qed.

(** The invariant of the loop: the running total never passes the cap. *)
Lemma trace_total_le (files : list jsstring) (total : Z) :
  total <= MAX_TOTAL_SIZE ->
  total + sumZ (map (fun fc => len (snd fc)) (includedOf (trace W total files)))
  <= MAX_TOTAL_SIZE.
Proof.
  revert total. induction files as [|f files IH]; intros total Hle.
  - simpl. lia.
  - cbn [trace]. pose proof (grow_le total f Hle) as Hg.
    specialize (IH (grow total (verdictAt W total f)) (proj2 Hg)).
    destruct (verdictAt W total f) as [reason|content].
    + exact IH.
    + change (includedOf ((f, Included content)
                            :: trace W (grow total (Included content)) files))
        with ((f, content)
                :: includedOf (trace W (grow total (Included content)) files)).
      cbn [map snd grow] in *. unfold sumZ in *. cbn [fold_right]. lia.
Qed.

Lemma trace_app (pre post : list jsstring) (total : Z) :
  trace W total (pre ++ post)
  = trace W total pre
      ++ trace W (total + sumZ (map (fun fc => len (snd fc))
                                    (includedOf (trace W total pre)))) post.
Proof.
  revert total. induction pre as [|f pre IH]; intros total.
  - simpl. now rewrite Z.add_0_r.
  - cbn [app trace]. rewrite IH. cbn [app]. f_equal. f_equal. f_equal.
    set (rest := trace W (grow total (verdictAt W total f)) pre).
    destruct (verdictAt W total f) as [reason|content].
    + reflexivity.
    + change (includedOf ((f, Included content) :: rest))
        with ((f, content) :: includedOf rest).
      cbn [map snd grow]. unfold sumZ. cbn [fold_right]. lia.
Qed.

(** Once the total has reached the cap nothing is read any more. *)
Lemma trace_at_cap (files : list jsstring) (total : Z) :
  MAX_TOTAL_SIZE <= total ->
  trace W total files = map (fun f => (f, Skipped (js "Total Limit"))) files.
Proof.
  intros Hcap. induction files as [|f files IH]; [reflexivity|].
  cbn [trace map]. unfold verdictAt.
  destruct (Z.geb_spec total MAX_TOTAL_SIZE); [|lia].
  cbn [grow]. now rewrite IH.
Qed.

Lemma collect_trace (files : list jsstring) :
  fullDiff (collect W files)
  = concat (map (fun fc => diffBlock (fst fc) (snd fc)) (includedOf (trace W 0 files)))
  /\ totalSize (collect W files)
     = sumZ (map (fun fc => len (snd fc)) (includedOf (trace W 0 files)))
  /\ skippedFiles (collect W files)
     = map (fun fr => skipEntry (fst fr) (snd fr)) (skippedOf (trace W 0 files)).
Proof.
  destruct (collectFrom_trace files start) as (Hd & Ht & Hs).
  unfold collect. rewrite Hd, Ht, Hs. simpl. repeat split.
Qed.

Lemma collect_totalSize_le (files : list jsstring) :
  totalSize (collect W files) <= MAX_TOTAL_SIZE.
Proof.
  destruct (collect_trace files) as (_ & -> & _).
  pose proof (trace_total_le files 0) as H.
  unfold MAX_TOTAL_SIZE in *. lia.
Qed.

End CollectorInvariant.

Lemma len_text (n : Z) : 0 <= n -> len (text n) = n.
Proof. intros Hn. unfold len, text. rewrite repeat_length. lia. Qed.

Lemma verdictAt_fits (W : World) (total : Z) (file content : jsstring) :
  total < MAX_TOTAL_SIZE -> getFileDiff W file = Diff content ->
  total + len content <= MAX_TOTAL_SIZE ->
  verdictAt W total file = Included content.
Proof.
  intros Hlt Hdiff Hfit. unfold verdictAt. rewrite Hdiff. cap_cases.
Qed.

Lemma verdictAt_over (W : World) (total : Z) (file content : jsstring) :
  getFileDiff W file = Diff content ->
  MAX_TOTAL_SIZE < total + len content ->
  verdictAt W total file = Skipped (js "Total Limit").
Proof.
  intros Hdiff Hover. unfold verdictAt. rewrite Hdiff. cap_cases.
Qed.

(** In a table world a path that no filter stops gets the diff of the
    table, when that diff is within the per-file cap. *)
Lemma tableWorld_getFileDiff (diffs : list (jsstring * jsstring))
      (file diff : jsstring) :
  isIgnored file = false -> isBinary file = false ->
  execSync (tableWorld diffs) (diffCommand file) = Ok diff ->
  len diff <= MAX_FILE_SIZE ->
  getFileDiff (tableWorld diffs) file = Diff diff.
Proof.
  intros Hi Hb Hx Hlen. unfold getFileDiff. rewrite Hi, Hb, Hx.
  cbn [statSize tableWorld]. cap_cases.
Qed.

Lemma fiveFiles_diffs :
  let W := tableWorld fiveFiles in
  getFileDiff W (js "a.txt") = Diff (text 30000)
  /\ getFileDiff W (js "b.txt") = Diff (text 30000)
  /\ getFileDiff W (js "c.txt") = Diff (text 30000)
  /\ getFileDiff W (js "d.txt") = Diff (text 20000)
  /\ getFileDiff W (js "e.txt") = Diff (text 5000).
Proof.
  cbv zeta.
  repeat split;
    (apply tableWorld_getFileDiff;
     [ vm_compute; reflexivity
     | vm_compute; reflexivity
     | reflexivity
     | rewrite len_text; unfold MAX_FILE_SIZE; lia ]).
Qed.

Lemma trace_cons (W : World) (total : Z) (file : jsstring) (rest : list jsstring) :
  trace W total (file :: rest)
  = (file, verdictAt W total file)
      :: trace W (grow total (verdictAt W total file)) rest.
Proof. reflexivity. Qed.

Lemma fiveFiles_trace :
  trace (tableWorld fiveFiles) 0
        [js "a.txt"; js "b.txt"; js "c.txt"; js "d.txt"; js "e.txt"]
  = [(js "a.txt", Included (text 30000)); (js "b.txt", Included (text 30000));
     (js "c.txt", Included (text 30000));
     (js "d.txt", Skipped (js "Total Limit"));
     (js "e.txt", Included (text 5000))].
Proof.
  destruct fiveFiles_diffs as (Ha & Hb & Hc & Hd & He).
  assert (L3 : len (text 30000) = 30000) by (apply len_text; lia).
  assert (L2 : len (text 20000) = 20000) by (apply len_text; lia).
  assert (L5 : len (text 5000) = 5000) by (apply len_text; lia).
  rewrite trace_cons.
  rewrite (verdictAt_fits _ 0 _ _ ltac:(unfold MAX_TOTAL_SIZE; lia) Ha)
    by (rewrite L3; unfold MAX_TOTAL_SIZE; lia).
  cbn [grow]. rewrite L3. change (0 + 30000) with 30000.
  rewrite trace_cons.
  rewrite (verdictAt_fits _ 30000 _ _ ltac:(unfold MAX_TOTAL_SIZE; lia) Hb)
    by (rewrite L3; unfold MAX_TOTAL_SIZE; lia).
  cbn [grow]. rewrite L3. change (30000 + 30000) with 60000.
  rewrite trace_cons.
  rewrite (verdictAt_fits _ 60000 _ _ ltac:(unfold MAX_TOTAL_SIZE; lia) Hc)
    by (rewrite L3; unfold MAX_TOTAL_SIZE; lia).
  cbn [grow]. rewrite L3. change (60000 + 30000) with 90000.
  rewrite trace_cons.
  rewrite (verdictAt_over _ 90000 _ _ Hd)
    by (rewrite L2; unfold MAX_TOTAL_SIZE; lia).
  cbn [grow].
  rewrite trace_cons.
  rewrite (verdictAt_fits _ 90000 _ _ ltac:(unfold MAX_TOTAL_SIZE; lia) He)
    by (rewrite L5; unfold MAX_TOTAL_SIZE; lia).
  reflexivity.
Qed.

(** C1, the claim as written, fails: three diffs of 30000 units bring the
    total to 90000; the fourth, of 20000, would pass the cap and is skipped
    with "Total Limit"; the fifth, of 5000, still fits and is included, so
    a file after the one that did not fit is not skipped. *)
Lemma collect_total_limit_counterexample :
  let W := tableWorld fiveFiles in
  let files := [js "a.txt"; js "b.txt"; js "c.txt"; js "d.txt"; js "e.txt"] in
  trace W 0 files
  = [(js "a.txt", Included (text 30000)); (js "b.txt", Included (text 30000));
     (js "c.txt", Included (text 30000));
     (js "d.txt", Skipped (js "Total Limit"));
     (js "e.txt", Included (text 5000))]
  /\ skippedFiles (collect W files) = [js "d.txt (Total Limit)"]
  /\ totalSize (collect W files) = 95000
  /\ fullDiff (collect W files)
     = diffBlock (js "a.txt") (text 30000) ++ diffBlock (js "b.txt") (text 30000)
         ++ diffBlock (js "c.txt") (text 30000)
         ++ diffBlock (js "e.txt") (text 5000)
  /\ ~ In (js "e.txt (Total Limit)") (skippedFiles (collect W files)).
Proof.
  cbv zeta.
  destruct (collect_trace (tableWorld fiveFiles)
              [js "a.txt"; js "b.txt"; js "c.txt"; js "d.txt"; js "e.txt"])
    as (Hd & Ht & Hs).
  rewrite fiveFiles_trace in Hd, Ht, Hs.
  assert (Hskip : skippedFiles (collect (tableWorld fiveFiles)
                    [js "a.txt"; js "b.txt"; js "c.txt"; js "d.txt"; js "e.txt"])
                  = [js "d.txt (Total Limit)"]).
  { rewrite Hs. reflexivity. }
  split; [exact fiveFiles_trace|]. split; [exact Hskip|]. split; [|split].
  - rewrite Ht. cbn [includedOf flat_map snd fst app map sumZ fold_right].
    rewrite !len_text by lia. reflexivity.
  - rewrite Hd. cbn [includedOf flat_map snd fst app map concat].
    now rewrite app_nil_r.
  - rewrite Hskip. intros [H|[]]. vm_compute in H. discriminate H.
Qed.

(** C1 (amended): the files are taken in the order of the listing; the
    payload is made of the diffs of the included files, and the sum of
    their lengths, which is the running total, never exceeds 100000. A
    file is skipped with "Total Limit" when the total has already reached
    the cap (then it is not even read, so every remaining file is skipped
    in this way whatever its size), or when its diff passed the per-file
    filters and adding it would pass the cap; a file that is reached below
    the cap and fits is included, also after an earlier file was skipped. *)
Theorem collect_total_cap (W : World) (files : list jsstring) :
  let r := collect W files in
  let tr := trace W 0 files in
  (map fst tr = files
   /\ fullDiff r
      = concat (map (fun fc => diffBlock (fst fc) (snd fc)) (includedOf tr))
   /\ skippedFiles r
      = map (fun fr => skipEntry (fst fr) (snd fr)) (skippedOf tr)
   /\ totalSize r = sumZ (map (fun fc => len (snd fc)) (includedOf tr)))
  /\ totalSize r <= 100000
  /\ (forall pre file post, files = pre ++ file :: post ->
        let t := totalSize (collect W pre) in
        tr = trace W 0 pre ++ (file, verdictAt W t file)
               :: trace W (grow t (verdictAt W t file)) post
        /\ t <= 100000
        /\ (t = 100000 ->
            trace W t (file :: post)
            = map (fun f => (f, Skipped (js "Total Limit"))) (file :: post))
        /\ (t < 100000 -> forall content, getFileDiff W file = Diff content ->
            verdictAt W t file
            = if t + len content >? 100000
              then Skipped (js "Total Limit") else Included content)
        /\ (t < 100000 -> forall reason, getFileDiff W file = Skip reason ->
            verdictAt W t file = Skipped reason)).
Proof.
  cbv zeta. destruct (collect_trace W files) as (Hd & Ht & Hs).
  split; [|split].
  - rewrite trace_files. auto.
  - apply collect_totalSize_le.
  - intros pre file post ->.
    destruct (collect_trace W pre) as (_ & Hpre & _).
    repeat split.
    + rewrite trace_app. rewrite Z.add_0_l, <- Hpre. reflexivity.
    + apply collect_totalSize_le.
    + intros Hcap. apply trace_at_cap. rewrite Hcap. reflexivity.
    + intros Hlt content Hdiff. unfold verdictAt. rewrite Hdiff.
      destruct (Z.geb_spec (totalSize (collect W pre)) MAX_TOTAL_SIZE) as [Hge|_];
        [unfold MAX_TOTAL_SIZE in Hge; lia|reflexivity].
    + intros Hlt reason Hskip. unfold verdictAt. rewrite Hskip.
      destruct (Z.geb_spec (totalSize (collect W pre)) MAX_TOTAL_SIZE) as [Hge|_];
        [unfold MAX_TOTAL_SIZE in Hge; lia|reflexivity].
Qed.

Lemma collect_total_cap_witness :
  totalSize (collect (tableWorld fiveFiles) [js "a.txt"; js "b.txt"; js "c.txt"])
  <= 100000.
Proof.
  refine (proj1 (proj2 (proj2 (proj2 (collect_total_cap (tableWorld fiveFiles)
            [js "a.txt"; js "b.txt"; js "c.txt"; js "d.txt"; js "e.txt"]))
            [js "a.txt"; js "b.txt"; js "c.txt"] (js "d.txt") [js "e.txt"] _))).
  reflexivity.
Defined.

(** ** The per-file filters *)

(** C5, the claim as written, fails for a staged path that is not on
    disk (a staged deletion): [fs.statSync] is called before any filter
    and throws, so a path that contains an ignore pattern is reported as
    "error reading", not "ignored". The [getFileDiff] of src/git.js
    tests the extension before the ignore patterns and has no size
    filter: a picture under dist is noted as binary. *)
Lemma getFileDiff_order_counterexample :
  isIgnored (js "dist/app.js") = true
  /\ getFileDiff deletedWorld (js "dist/app.js") = Skip (js "error reading")
  /\ getFileDiff deletedWorld (js "dist/app.js") <> Skip (js "ignored")
  /\ existsb (fun p => includes (js "dist/logo.png") p) Config.IGNORE_PATTERNS = true
  /\ Git.getFileDiff deletedWorld (js "dist/logo.png")
     = js "(Binary file: dist/logo.png)".
Proof.
  repeat split; try (vm_compute; reflexivity).
  vm_compute. discriminate.
Qed.

(** C5 (amended): for a staged path whose size on disk can be read, the
    filters of the collector apply in this order, the first that matches
    giving the reason: an ignore pattern in the path, "ignored"; a binary
    extension, "binary"; a size on disk above 30000, "too large";
    otherwise the staged diff is fetched, and a diff longer than 30000 is
    skipped as "diff too large", a shorter one is the content. A path
    whose size cannot be read, or whose diff cannot be fetched, is skipped
    as "error reading". *)
Theorem getFileDiff_filter_order (W : World) (file : jsstring) :
  (forall m, statSize W file = Throw m -> getFileDiff W file = Skip (js "error reading"))
  /\ (forall size, statSize W file = Ok size ->
      (isIgnored file = true -> getFileDiff W file = Skip (js "ignored"))
      /\ (isIgnored file = false -> isBinary file = true ->
          getFileDiff W file = Skip (js "binary"))
      /\ (isIgnored file = false -> isBinary file = false -> 30000 < size ->
          getFileDiff W file = Skip (js "too large"))
      /\ (isIgnored file = false -> isBinary file = false -> size <= 30000 ->
          (forall m, execSync W (diffCommand file) = Throw m ->
                     getFileDiff W file = Skip (js "error reading"))
          /\ (forall diff, execSync W (diffCommand file) = Ok diff ->
                (30000 < len diff -> getFileDiff W file = Skip (js "diff too large"))
                /\ (len diff <= 30000 -> getFileDiff W file = Diff diff)))).
Proof.
  unfold getFileDiff. split.
  - intros m ->. reflexivity.
  - intros size ->.
    split; [intros ->; reflexivity|].
    split; [intros -> ->; reflexivity|].
    split.
    + intros -> -> Hsize. cap_cases.
    + intros -> -> Hsize. split.
      * intros m ->. cap_cases.
      * intros diff ->. split; intros Hlen; cap_cases.
Qed.

Lemma getFileDiff_filter_order_witness :
  getFileDiff (tableWorld fiveFiles) (js "dist/a.txt") = Skip (js "ignored").
Proof.
  refine (proj1 (proj2 (getFileDiff_filter_order (tableWorld fiveFiles)
                          (js "dist/a.txt")) 100 eq_refl) _).
  vm_compute. reflexivity.
Defined.

(** ** The display of a rate-limit error *)

Import Cli.

(** A paragraph that fits the limit stays on one line. *)
Lemma wrapChars_fits (limit : Z) (cs : list jsstring) (cur : jsstring) (w : Z) :
  w + getVisualWidth (concat cs) <= limit ->
  wrapChars limit cs cur w = [cur ++ concat cs].
Proof.
  revert cur w. induction cs as [|ch cs IH]; intros cur w Hfit; simpl.
  - now rewrite app_nil_r.
  - simpl in Hfit. rewrite getVisualWidth_app in Hfit.
    pose proof (getVisualWidth_nonneg (concat cs)) as Hnn.
    destruct (Z.gtb_spec (w + getVisualWidth ch) limit) as [Hgt|_]; [lia|].
    rewrite IH by lia. now rewrite <- app_assoc.
Qed.

Lemma wrapText_fits (s : jsstring) (mw : option Z) (pr : option Process) :
  noNL s -> getVisualWidth s <= wrapLimit mw pr -> wrapText s mw pr = s.
Proof.
  intros Hnl Hfit. unfold wrapText. destruct s as [|c s]; [reflexivity|].
  cbn [truthy]. unfold wrapLines. rewrite (split_nl_single _ Hnl).
  cbn [flat_map]. rewrite app_nil_r. unfold wrapParagraph.
  rewrite wrapChars_fits; rewrite chars_concat; [reflexivity|lia].
Qed.

(** C3: a 429 transport error whose message is the line
    [[429 Too Many Requests] Quota exceeded] followed by a space and the
    structured detail (an array that opens with a bracket, a brace and the
    quoted key @type, whatever comes after) is displayed as exactly
    [[429 Too Many Requests] Quota exceeded]: the detail is dropped. The
    text handed to the note is that message unchanged whenever the wrap
    limit leaves room for its 38 columns, as it does when the terminal
    width is unknown. *)
Theorem displayMsg_rate_limit (detail : jsstring) :
  let original :=
    js "[429 Too Many Requests] Quota exceeded [{" ++ [DQUOTE] ++ js "@type"
       ++ [DQUOTE] ++ detail in
  displayMsg original = js "[429 Too Many Requests] Quota exceeded"
  /\ shownError original termUnknown = js "[429 Too Many Requests] Quota exceeded"
  /\ (forall pr, 38 <= wrapLimit (Some 0) pr ->
                 shownError original pr = js "[429 Too Many Requests] Quota exceeded").
Proof.
  cbv zeta.
  assert (E : displayMsg
                (js "[429 Too Many Requests] Quota exceeded [{" ++ [DQUOTE]
                    ++ js "@type" ++ [DQUOTE] ++ detail)
              = js "[429 Too Many Requests] Quota exceeded")
    by (vm_compute; reflexivity).
  unfold shownError. rewrite E. split; [reflexivity|]. split.
  - vm_compute. reflexivity.
  - intros pr Hlimit. apply wrapText_fits.
    + unfold noNL. vm_compute. intuition discriminate.
    + replace (getVisualWidth (js "[429 Too Many Requests] Quota exceeded"))
        with 38 by (vm_compute; reflexivity).
      exact Hlimit.
Qed.

Lemma displayMsg_rate_limit_witness :
  shownError
    (js "[429 Too Many Requests] Quota exceeded [{" ++ [DQUOTE] ++ js "@type"
        ++ [DQUOTE] ++ js ": type.googleapis.com/google.rpc.QuotaFailure}]")
    (term 120)
  = js "[429 Too Many Requests] Quota exceeded".
Proof.
  refine (proj2 (proj2 (displayMsg_rate_limit
            (js ": type.googleapis.com/google.rpc.QuotaFailure}]"))) (term 120) _).
  vm_compute. discriminate.
Defined.

(** ** The suggestion injector *)

Lemma findIndex_Some (pred : jsstring -> bool) (lines : list jsstring) (i : nat) :
  findIndex pred lines = Some i ->
  (exists l, nth_error lines i = Some l /\ pred l = true)
  /\ (forall j l, (j < i)%nat -> nth_error lines j = Some l -> pred l = false).
Proof.
  revert i. induction lines as [|l lines IH]; intros i; simpl; [discriminate|].
  destruct (pred l) eqn:Hl.
  - intros [= <-]. split; [exists l; auto|]. intros j l' Hj. lia.
  - destruct (findIndex pred lines) as [k|]; [|discriminate].
    intros [= <-]. destruct (IH k eq_refl) as [Hex Hbefore]. split; [exact Hex|].
    intros [|j] l' Hj; simpl.
    + intros [= <-]. exact Hl.
    + apply Hbefore. lia.
Qed.

Lemma findIndex_None (pred : jsstring -> bool) (lines : list jsstring) :
  findIndex pred lines = None -> Forall (fun l => pred l = false) lines.
Proof.
  induction lines as [|l lines IH]; simpl; [constructor|].
  destruct (pred l) eqn:Hl; [discriminate|].
  destruct (findIndex pred lines); [discriminate|]. intros _.
  constructor; [exact Hl|]. now apply IH.
Qed.

(** The order of the two attempts: the context line first, the line
    number only when the context did not place the comment, and a line
    number only places it before a line that is not empty. *)
Lemma inject_priority (item : Finding) (lines : list jsstring) (todo : jsstring) :
  let byCtx :=
    match present (contextLine item) with
    | Some ctx => findIndex (fun l => includes l (trim ctx)) lines
    | None => None
    end in
  let byNum :=
    match present (lineNumber item) with
    | Some number =>
        match parseInt number with
        | Some n =>
            match lineAt lines (n - 1) with
            | Some line => if truthy line then Some (Z.to_nat (n - 1)) else None
            | None => None
            end
        | None => None
        end
    | None => None
    end in
  inject item lines todo =
  match byCtx, byNum with
  | Some i, _ => (splice lines i (leadingWhiteSpace (nth i lines []) ++ todo), true)
  | None, Some l => (splice lines l todo, true)
  | None, None => (lines, false)
  end.
Proof.
  cbv zeta. unfold inject, injectByContext, injectByNumber.
  destruct (present (contextLine item)) as [ctx|].
  - destruct (findIndex (fun l => includes l (trim ctx)) lines) as [i|];
      [reflexivity|].
    cbn [negb]. destruct (present (lineNumber item)) as [number|]; [|reflexivity].
    destruct (parseInt number) as [n|]; [|reflexivity].
    destruct (lineAt lines (n - 1)) as [line|]; [|reflexivity].
    destruct (truthy line); reflexivity.
  - cbn [negb]. destruct (present (lineNumber item)) as [number|]; [|reflexivity].
    destruct (parseInt number) as [n|]; [|reflexivity].
    destruct (lineAt lines (n - 1)) as [line|]; [|reflexivity].
    destruct (truthy line); reflexivity.
Qed.

(** The two examples of the specification: the context [return 1;] puts
    the comment before the second line with its two spaces of indent; the
    line number 2 alone aims at the same place, without indent. *)
Lemma inject_examples :
  inject byContext (split_nl threeLines) (js "// TODO")
  = ([js "function f() {"; js "  // TODO"; js "  return 1;"; js "}"], true)
  /\ inject byNumber (split_nl threeLines) (js "// TODO")
     = ([js "function f() {"; js "// TODO"; js "  return 1;"; js "}"], true).
Proof. split; vm_compute; reflexivity. Qed.

(** C2: the file [a], an empty line, [b] has a line at position 2, and
    the finding carries no context line and the line number 2, which
    parses as 2; the claim asks for the comment before that line, and
    the injector, which tests the line for truth and not for presence,
    leaves the file as it is and reports no injection. *)
Lemma inject_blank_line_not_applied :
  let fs : Fs.t := {[ js "f.js" := sourceFile blankSecondLine ]} in
  present (contextLine byNumber) = None
  /\ present (lineNumber byNumber) = Some (js "2")
  /\ parseInt (js "2") = Some 2
  /\ lineAt (split_nl blankSecondLine) (2 - 1) = Some []
  /\ inject byNumber (split_nl blankSecondLine)
            (Git.getCommentSyntax (filePath byNumber) (message byNumber))
     = (split_nl blankSecondLine, false)
  /\ applySuggestion fs byNumber = Ok (fs, false).
Proof.
  cbv zeta. repeat split; vm_compute; reflexivity.
Qed.

Lemma applySuggestion_not_applied (fs fs' : Fs.t) (item : Finding) :
  applySuggestion fs item = Ok (fs', false) -> fs' = fs.
Proof.
  unfold applySuggestion.
  destruct (Fs.existsSync fs (filePath item)); cbn [negb].
  - destruct (Fs.readFileSync fs (filePath item)) as [content|m]; [|discriminate].
    destruct (inject item (split_nl content) _) as [lines' [|]]; [discriminate|].
    now intros [= <-].
  - now intros [= <-].
Qed.

Lemma applySuggestion_frame (fs fs' : Fs.t) (item : Finding) (injected : bool)
      (p : jsstring) :
  applySuggestion fs item = Ok (fs', injected) ->
  p <> filePath item -> fs' !! p = fs !! p.
Proof.
  unfold applySuggestion.
  destruct (Fs.existsSync fs (filePath item)); cbn [negb].
  - destruct (Fs.readFileSync fs (filePath item)) as [content|m]; [|discriminate].
    destruct (inject item (split_nl content) _) as [lines' [|]].
    + intros [= <- _] Hp. unfold Fs.writeFileSync.
      now rewrite lookup_insert_ne.
    + now intros [= <- _].
  - now intros [= <- _].
Qed.

Lemma applyOne_Ok (pending : list Finding) (r r' : Round) (idx : nat) :
  applyOne pending r idx = Ok r' ->
  is_Some (pending !! idx)
  /\ indicesToRemove r'
     = (if appliedAt pending r idx then {[idx]} ∪ indicesToRemove r
        else indicesToRemove r)
  /\ appliedCount r'
     = appliedCount r + (if appliedAt pending r idx then 1 else 0)
  /\ (appliedAt pending r idx = false -> disk r' = disk r).
Proof.
  unfold applyOne, appliedAt.
  destruct (pending !! idx) as [item|]; [|discriminate].
  destruct (applySuggestion (disk r) item) as [[fs' [|]]|m] eqn:E;
    [| |discriminate].
  - intros [= <-]. simpl. repeat split; eauto. discriminate.
  - intros [= <-]. simpl. repeat split; eauto; [lia|].
    intros _. now apply applySuggestion_not_applied in E.
Qed.

(** What a round leaves in [indicesToRemove] and [appliedCount]. *)
Lemma applySelected_log (pending : list Finding) (selected : list nat) (r r' : Round) :
  applySelected pending r selected = Ok r' ->
  indicesToRemove r'
  = list_to_set (appliedLog pending r selected) ∪ indicesToRemove r
  /\ appliedCount r' = appliedCount r + len (appliedLog pending r selected).
Proof.
  revert r. induction selected as [|idx rest IH]; intros r; simpl.
  - intros [= <-]. split; [set_solver|unfold len; simpl; lia].
  - destruct (applyOne pending r idx) as [r1|m] eqn:E; [|discriminate].
    intros Hrest. destruct (IH r1 Hrest) as [Hset Hcount].
    destruct (applyOne_Ok _ _ _ _ E) as (_ & Hs1 & Hc1 & _).
    rewrite Hset, Hcount, Hs1, Hc1.
    destruct (appliedAt pending r idx).
    + split; [set_solver|unfold len; simpl length; lia].
    + split; [reflexivity|lia].
Qed.

Lemma appliedLog_sublist (pending : list Finding) (selected : list nat) (r : Round) :
  appliedLog pending r selected `sublist_of` selected.
Proof.
  revert r. induction selected as [|idx rest IH]; intros r; simpl.
  - constructor.
  - destruct (applyOne pending r idx) as [r1|m]; [|apply sublist_nil_l].
    destruct (appliedAt pending r idx).
    + apply sublist_skip, IH.
    + apply sublist_cons, IH.
Qed.

Lemma elem_of_pruneFrom {A : Type} (removed : gset nat) (l : list A) (k : nat) (x : A) :
  x ∈ pruneFrom removed k l <->
  exists j, l !! j = Some x /\ (k + j)%nat ∉ removed.
Proof.
  revert k. induction l as [|y l IH]; intros k; simpl.
  - split; [intros H; inversion H|intros (j & Hj & _); discriminate].
  - destruct (decide (k ∈ removed)) as [Hin|Hout].
    + rewrite IH. split.
      * intros (j & Hj & Hn). exists (S j). split; [exact Hj|].
        now replace (k + S j)%nat with (S k + j)%nat by lia.
      * intros ([|j] & Hj & Hn).
        -- exfalso. apply Hn. now replace (k + 0)%nat with k by lia.
        -- exists j. split; [exact Hj|].
           now replace (S k + j)%nat with (k + S j)%nat by lia.
    + rewrite elem_of_cons, IH. split.
      * intros [->|(j & Hj & Hn)].
        -- exists O. split; [reflexivity|].
           now replace (k + 0)%nat with k by lia.
        -- exists (S j). split; [exact Hj|].
           now replace (k + S j)%nat with (S k + j)%nat by lia.
      * intros ([|j] & Hj & Hn).
        -- left. simpl in Hj. congruence.
        -- right. exists j. split; [exact Hj|].
           now replace (S k + j)%nat with (k + S j)%nat by lia.
Qed.

Lemma pruneFrom_fmap {A B : Type} (f : A -> B) (removed : gset nat)
      (l : list A) (k : nat) :
  f <$> pruneFrom removed k l = pruneFrom removed k (f <$> l).
Proof.
  revert k. induction l as [|y l IH]; intros k; simpl; [reflexivity|].
  destruct (decide (k ∈ removed)); [apply IH|].
  rewrite fmap_cons. f_equal. apply IH.
Qed.

Lemma pruneFrom_sublist {A : Type} (removed : gset nat) (l : list A) (k : nat) :
  pruneFrom removed k l `sublist_of` l.
Proof.
  revert k. induction l as [|y l IH]; intros k; simpl; [constructor|].
  destruct (decide (k ∈ removed)); [apply sublist_cons|apply sublist_skip]; apply IH.
Qed.

Lemma NoDup_omap_inj {A B : Type} (f : A -> option B) (l : list A) :
  NoDup l ->
  (forall a a' b, a ∈ l -> a' ∈ l -> f a = Some b -> f a' = Some b -> a = a') ->
  NoDup (omap f l).
Proof.
  induction 1 as [|a l Ha Hl IH]; intros Hinj; simpl; [constructor|].
  assert (IH' : NoDup (omap f l)).
  { apply IH. intros a1 a2 b H1 H2. apply Hinj; now right. }
  destruct (f a) as [b|] eqn:Hfa; [|exact IH'].
  constructor; [|exact IH'].
  rewrite list_elem_of_omap. intros (a' & Ha' & Hfa').
  apply Ha. rewrite (Hinj a a' b); auto; [now left|now right].
Qed.

Lemma tagged_tags (findings : list Finding) :
  (tagged findings).*1 = seq 0 (length findings).
Proof. unfold tagged. apply fst_zip. now rewrite length_seq. Qed.

Lemma appliedLog_removed (pending : list Finding) (selected : list nat)
      (fs : Fs.t) (r : Round) (idx : nat) :
  applySelected pending (freshRound fs) selected = Ok r ->
  idx ∈ appliedLog pending (freshRound fs) selected <-> idx ∈ indicesToRemove r.
Proof.
  intros Hr. destruct (applySelected_log _ _ _ _ Hr) as [-> _].
  simpl. set_solver.
Qed.

(** Across the rounds of a run, no tag is applied twice, and only tags
    that were pending at the start are applied. *)
Lemma annotateRun_once (rounds : list (list nat)) :
  forall (fs : Fs.t) (pending : list (nat * Finding)) (log : list nat),
    NoDup (pending.*1) -> Forall NoDup rounds ->
    annotateRun fs pending rounds = Ok log ->
    NoDup log /\ (forall t, t ∈ log -> t ∈ pending.*1).
Proof.
  induction rounds as [|selected rest IH]; intros fs pending log Htags Hsel; simpl.
  - intros [= <-]. split; [constructor|]. intros t Ht. inversion Ht.
  - inversion Hsel as [|? ? Hselected Hrest]; subst.
    destruct (applySelected (pending.*2) (freshRound fs) selected) as [r|m] eqn:Er;
      [|discriminate].
    destruct (annotateRun (disk r) (prune (indicesToRemove r) pending) rest)
      as [later|m] eqn:El; [|discriminate].
    intros [= <-].
    set (applied := appliedLog (pending.*2) (freshRound fs) selected) in *.
    assert (Hpruned : (prune (indicesToRemove r) pending).*1
                        `sublist_of` pending.*1).
    { unfold prune. rewrite pruneFrom_fmap. apply pruneFrom_sublist. }
    assert (Hkept : NoDup (prune (indicesToRemove r) pending).*1)
      by (eapply sublist_NoDup; [exact Htags|exact Hpruned]).
    destruct (IH _ _ _ Hkept Hrest El) as [Hlater Hsub].
    assert (Happlied : NoDup applied).
    { eapply sublist_NoDup; [exact Hselected|apply appliedLog_sublist]. }
    assert (Hlookup : forall idx t, fst <$> pending !! idx = Some t ->
                                    pending.*1 !! idx = Some t).
    { intros idx t H. now rewrite list_lookup_fmap. }
    split.
    + apply NoDup_app. split; [|split; [|exact Hlater]].
      * apply NoDup_omap_inj; [exact Happlied|].
        intros i j t _ _ Hi Hj.
        eapply NoDup_lookup; [exact Htags|apply Hlookup, Hi|apply Hlookup, Hj].
      * intros t Ht Hin. apply list_elem_of_omap in Ht as (idx & Hidx & Ht).
        apply Hsub in Hin. unfold prune in Hin. rewrite pruneFrom_fmap in Hin.
        apply elem_of_pruneFrom in Hin as (j & Hj & Hout). simpl in Hout.
        assert (j = idx) as ->.
        { eapply NoDup_lookup; [exact Htags|exact Hj|apply Hlookup, Ht]. }
        apply Hout. apply (appliedLog_removed _ _ _ _ _ Er). exact Hidx.
    + intros t Ht. apply elem_of_app in Ht as [Ht|Ht].
      * apply list_elem_of_omap in Ht as (idx & _ & Ht).
        apply list_elem_of_lookup. exists idx. apply Hlookup, Ht.
      * eapply elem_of_sublist; [|exact Hpruned]. now apply Hsub.
Qed.

(** C7: the injector rewrites a file only when the comment was placed:
    when it was not, all files are as before, and when it was, only the
    file of the finding changed. At the end of a round [indicesToRemove]
    holds the indices of the findings applied and of no other, the count
    reported is the number of applications, and the pending suggestions
    are the former ones without those at these indices. Hence, over the
    successive rounds of a run in which each selection names an index at
    most once, every finding of the review is applied at most once. *)
Theorem injector_rewrites_on_success_and_prunes :
  (forall (fs fs' : Fs.t) item,
      applySuggestion fs item = Ok (fs', false) -> fs' = fs)
  /\ (forall (fs fs' : Fs.t) item p,
         applySuggestion fs item = Ok (fs', true) ->
         p <> filePath item -> fs' !! p = fs !! p)
  /\ (forall pending (fs : Fs.t) selected r,
         applySelected pending (freshRound fs) selected = Ok r ->
         let applied := appliedLog pending (freshRound fs) selected in
         indicesToRemove r = list_to_set applied
         /\ appliedCount r = len applied
         /\ (forall idx, idx ∈ applied -> idx ∈ selected)
         /\ (forall x, x ∈ prune (indicesToRemove r) pending <->
                       exists j, pending !! j = Some x /\ j ∉ applied))
  /\ (forall (fs : Fs.t) findings rounds log,
         Forall NoDup rounds ->
         annotateRun fs (tagged findings) rounds = Ok log ->
         NoDup log).
Proof.
  split; [exact applySuggestion_not_applied|].
  split; [intros fs fs' item p; apply applySuggestion_frame|].
  split.
  - intros pending fs selected r Hr. cbv zeta.
    destruct (applySelected_log _ _ _ _ Hr) as [Hset Hcount]. simpl in Hset, Hcount.
    split; [rewrite Hset; set_solver|]. split; [lia|]. split.
    + intros idx Hidx. eapply elem_of_sublist; [exact Hidx|apply appliedLog_sublist].
    + intros x. unfold prune. rewrite elem_of_pruneFrom. simpl.
      split; intros (j & Hj & Hout); exists j; (split; [exact Hj|]);
        intros Hin; apply Hout; now apply (appliedLog_removed _ _ _ _ _ Hr).
  - intros fs findings rounds log Hsel Hrun.
    refine (proj1 (annotateRun_once rounds fs (tagged findings) log _ Hsel Hrun)).
    rewrite tagged_tags. apply NoDup_seq.
Qed.

Lemma injector_rewrites_on_success_and_prunes_witness :
  NoDup [0%nat; 1%nat].
Proof.
  refine (proj2 (proj2 (proj2 injector_rewrites_on_success_and_prunes))
            {[ js "f.js" := sourceFile threeLines ]} [byContext; byNumber]
            [[0%nat]; [0%nat]] [0%nat; 1%nat] _ _).
  - repeat constructor; intros H; inversion H.
  - vm_compute. reflexivity.
Defined.

(** ** The edit flow *)

(** The paths through [editCommitMessage]. *)
Lemma editCommitMessage_paths (os : Fs.Os) (fs : Fs.t) (msg : jsstring) :
  let tmp := Git.tempFile os in
  let fs1 := Fs.writeFileSync fs tmp msg in
  Git.editCommitMessage os fs msg =
  match Fs.spawnSync os (Git.editorOf os) [tmp] fs1 with
  | Throw _ => (msg, fs1)
  | Ok fs2 =>
      match fs2 !! tmp with
      | None => (msg, fs2)
      | Some f =>
          if Fs.readable f then (trim (Fs.content f), delete tmp fs2)
          else (msg, fs2)
      end
  end.
Proof.
  cbv zeta. unfold Git.editCommitMessage.
  destruct (Fs.spawnSync os _ _ _) as [fs2|m]; [|reflexivity].
  unfold Fs.existsSync, Fs.readFileSync, Fs.unlinkSync.
  destruct (fs2 !! Git.tempFile os) as [f|]; [|reflexivity].
  destruct (Fs.readable f); reflexivity.
Qed.

(** When the editor returns and its file can be read, or is gone, no
    temporary file is left. *)
Lemma editCommitMessage_removes_temp (os : Fs.Os) (fs fs2 : Fs.t) (msg : jsstring) :
  Fs.spawnSync os (Git.editorOf os) [Git.tempFile os]
               (Fs.writeFileSync fs (Git.tempFile os) msg) = Ok fs2 ->
  match fs2 !! Git.tempFile os with
  | Some f => Fs.readable f = true
  | None => True
  end ->
  Fs.existsSync (snd (Git.editCommitMessage os fs msg)) (Git.tempFile os) = false.
Proof.
  intros Hspawn Hread. pose proof (editCommitMessage_paths os fs msg) as E.
  cbv zeta in E. rewrite E, Hspawn. unfold Fs.existsSync.
  destruct (fs2 !! Git.tempFile os) as [f|] eqn:Hf.
  - rewrite Hread. simpl. now rewrite lookup_delete_eq.
  - simpl. now rewrite Hf.
Qed.

(** The file written for the editor is still there when the call of the
    editor throws, and when the file cannot be read back. *)
Lemma editCommitMessage_keeps_temp (os : Fs.Os) (fs : Fs.t) (msg : jsstring) :
  match Fs.spawnSync os (Git.editorOf os) [Git.tempFile os]
                     (Fs.writeFileSync fs (Git.tempFile os) msg) with
  | Throw _ => True
  | Ok fs2 =>
      match fs2 !! Git.tempFile os with
      | Some f => Fs.readable f = false
      | None => False
      end
  end ->
  fst (Git.editCommitMessage os fs msg) = msg
  /\ Fs.existsSync (snd (Git.editCommitMessage os fs msg)) (Git.tempFile os) = true.
Proof.
  pose proof (editCommitMessage_paths os fs msg) as E. cbv zeta in E. rewrite E.
  destruct (Fs.spawnSync os _ _ _) as [fs2|m].
  - destruct (fs2 !! Git.tempFile os) as [f|] eqn:Hf; [|contradiction].
    intros ->. simpl. unfold Fs.existsSync. now rewrite Hf.
  - intros _. simpl. unfold Fs.existsSync, Fs.writeFileSync.
    now rewrite lookup_insert_eq.
Qed.

(** C8: with an editor that takes away the read permission of the file
    it is given, reading the file back throws inside the [try]; the
    [catch] returns the initial message and does not unlink, so the
    temporary file is still on disk after [editCommitMessage] has
    returned. The same happens when the call of the editor itself throws.
    With an editor that saves a text, the file is removed. *)
Lemma editCommitMessage_leaves_temp_file :
  let msg := js "fix: typo" in
  (fst (Git.editCommitMessage Git.lockingEditor ∅ msg) = msg
   /\ Fs.existsSync (snd (Git.editCommitMessage Git.lockingEditor ∅ msg))
                    (Git.tempFile Git.lockingEditor) = true)
  /\ (fst (Git.editCommitMessage Git.refusedSpawn ∅ msg) = msg
      /\ Fs.existsSync (snd (Git.editCommitMessage Git.refusedSpawn ∅ msg))
                       (Git.tempFile Git.refusedSpawn) = true)
  /\ (fst (Git.editCommitMessage (Git.typingEditor (js " fix: a typo ")) ∅ msg)
      = js "fix: a typo"
      /\ Fs.existsSync
           (snd (Git.editCommitMessage (Git.typingEditor (js " fix: a typo ")) ∅ msg))
           (Git.tempFile (Git.typingEditor (js " fix: a typo "))) = false).
Proof.
  cbv zeta. repeat split; vm_compute; reflexivity.
Qed.

(** ** The action loop *)

Lemma menu_issues_disabled (s : Session) :
  In (Issues, negb (0 <? len (suggestions s))) (menuOptions s)
  /\ (selectable s Issues = false <-> suggestions s = [])
  /\ selectable s Commit = true /\ selectable s Edit = true
  /\ selectable s Cancel = true.
Proof.
  split; [simpl; tauto|]. split; [|repeat split].
  unfold selectable, menuOptions, len. simpl.
  destruct (suggestions s) as [|f fs]; simpl.
  - split; reflexivity.
  - split; [|discriminate].
    destruct (Z.ltb_spec 0 (Z.pos (Pos.of_succ_nat (length fs)))); [|lia].
    simpl. discriminate.
Qed.

Lemma turn_edit (os : Fs.Os) (s : Session) (t : Turn) :
  choice t = Answer Edit ->
  turn os s t = if tempWritable t then Menu (afterEdit os s) else Uncaught WRITE_FAILED.
Proof. intros Hc. unfold turn. now rewrite Hc. Qed.

Lemma afterEdit_fields (os : Fs.Os) (s : Session) :
  currentMessage (afterEdit os s)
  = fst (Git.editCommitMessage os (tree s) (currentMessage s))
  /\ tree (afterEdit os s)
     = snd (Git.editCommitMessage os (tree s) (currentMessage s))
  /\ suggestions (afterEdit os s) = suggestions s
  /\ restaged (afterEdit os s) = restaged s.
Proof.
  unfold afterEdit.
  destruct (Git.editCommitMessage os (tree s) (currentMessage s)).
  repeat split.
Qed.

Lemma len_pos_cons {A : Type} (l : list A) : l <> [] -> (0 <? len l) = true.
Proof.
  destruct l; [congruence|]. intros _. apply Z.ltb_lt. unfold len. simpl length. lia.
Qed.

(** How the annotate branch ends, case by case. *)
Lemma annotate_empty (s : Session) (answer : prompt bool) (restage : bool) :
  annotate s [] answer restage = Menu s.
Proof. reflexivity. Qed.

Lemma annotate_throws (s : Session) (selected : list nat) (answer : prompt bool)
      (restage : bool) (m : jsstring) :
  selected <> [] ->
  applySelected (suggestions s) (freshRound (tree s)) selected = Throw m ->
  annotate s selected answer restage = Uncaught m.
Proof.
  intros Hne Hr. unfold annotate. now rewrite (len_pos_cons _ Hne), Hr.
Qed.

Lemma annotate_applied (s : Session) (selected : list nat) (answer : prompt bool)
      (restage : bool) (r : Round) :
  selected <> [] ->
  applySelected (suggestions s) (freshRound (tree s)) selected = Ok r ->
  annotate s selected answer restage
  = match answer with
    | Answer true =>
        if restage then Menu (afterRestage (afterApply s r))
        else Uncaught RESTAGE_FAILED
    | _ => Exit 0 (afterApply s r)
    end.
Proof.
  intros Hne Hr. unfold annotate. rewrite (len_pos_cons _ Hne), Hr. cbv zeta.
  now destruct answer as [|[|]].
Qed.

(** A turn of the kind [backToMenu] shows the menu again, unless the
    injector throws. *)
Lemma turn_backToMenu (os : Fs.Os) (s : Session) (t : Turn) :
  backToMenu t = true ->
  (exists s', turn os s t = Menu s')
  \/ (exists m selected,
         choice t = Answer Issues /\ selection t = Answer selected
         /\ applySelected (suggestions s) (freshRound (tree s)) selected = Throw m
         /\ turn os s t = Uncaught m).
Proof.
  unfold backToMenu, turn.
  destruct (choice t) as [|[| | |]]; try discriminate.
  - intros ->. left. now eexists.
  - destruct (selection t) as [|selected]; [discriminate|].
    destruct selected as [|idx rest].
    + intros _. left. now eexists.
    + assert (Hne : idx :: rest <> []) by discriminate.
      rewrite (len_pos_cons _ Hne). cbn [negb orb].
      destruct (applySelected (suggestions s) (freshRound (tree s)) (idx :: rest))
        as [r|m] eqn:Hr.
      * rewrite (annotate_applied _ _ _ _ _ Hne Hr).
        destruct (commitNow t) as [|[|]]; try discriminate.
        intros ->. left. now eexists.
      * intros _. right. exists m, (idx :: rest).
        repeat split; [exact Hr|]. now apply annotate_throws.
Qed.

Lemma actionLoop_app (os : Fs.Os) (done rest : list Turn) (s s0 : Session) :
  actionLoop os s done = Menu s0 ->
  actionLoop os s (done ++ rest) = actionLoop os s0 rest.
Proof.
  revert s. induction done as [|t done IH]; intros s; cbn [actionLoop app].
  - now intros [= ->].
  - destruct (turn os s t) as [s1|code s1|m]; [apply IH|discriminate|discriminate].
Qed.

(** After any number of such turns the loop is at the menu, unless the
    injector threw during one of them. *)
Lemma actionLoop_reentrant (os : Fs.Os) (turns : list Turn) (s : Session) :
  Forall (fun t => backToMenu t = true) turns ->
  (exists s', actionLoop os s turns = Menu s')
  \/ (exists m done t rest s0 selected,
         turns = done ++ t :: rest
         /\ actionLoop os s done = Menu s0
         /\ choice t = Answer Issues /\ selection t = Answer selected
         /\ applySelected (suggestions s0) (freshRound (tree s0)) selected = Throw m
         /\ actionLoop os s turns = Uncaught m).
Proof.
  intros Hall. revert s. induction Hall as [|t rest Ht _ IH]; intros s.
  - left. now exists s.
  - destruct (turn_backToMenu os s t Ht) as [[s1 H1]|(m & selected & Hc & Hs & Hr & H1)].
    + destruct (IH s1) as [[s' H]|(m & done & t' & rest' & s0 & selected & -> & Hd & Hc & Hs & Hr & H)].
      * left. exists s'. cbn [actionLoop]. now rewrite H1.
      * right. exists m, (t :: done), t', rest', s0, selected.
        cbn [actionLoop app]. rewrite H1. repeat split; assumption.
    + right. exists m, [], t, rest, s, selected.
      cbn [actionLoop app]. rewrite H1. repeat split; assumption.
Qed.

(** The turns that end the run. *)
Lemma turn_exit (os : Fs.Os) (s s' : Session) (t : Turn) (code : Z) :
  turn os s t = Exit code s' ->
  (choice t = Cancelled /\ code = 0)
  \/ (choice t = Answer Cancel /\ code = 0)
  \/ (choice t = Answer Commit /\ code = if commitSucceeds t then 0 else 1)
  \/ (choice t = Answer Issues /\ code = 0
      /\ (selection t = Cancelled
          \/ commitNow t = Answer false \/ commitNow t = Cancelled)).
Proof.
  unfold turn. destruct (choice t) as [|[| | |]].
  - intros [= <- _]. now left.
  - destruct (commitSucceeds t); intros [= <- _]; right; right; left; auto.
  - destruct (tempWritable t); discriminate.
  - destruct (selection t) as [|selected].
    + intros [= <- _]. right. right. right. auto.
    + intros H. right. right. right. split; [reflexivity|].
      destruct selected as [|idx rest]; [discriminate H|].
      assert (Hne : idx :: rest <> []) by discriminate.
      destruct (applySelected (suggestions s) (freshRound (tree s)) (idx :: rest))
        as [r|m] eqn:Hr.
      * rewrite (annotate_applied _ _ _ _ _ Hne Hr) in H.
        destruct (commitNow t) as [|[|]].
        -- injection H as <- _. auto.
        -- destruct (restageSucceeds t); discriminate H.
        -- injection H as <- _. auto.
      * rewrite (annotate_throws _ _ _ _ _ Hne Hr) in H. discriminate H.
  - intros [= <- _]. right. now left.
Qed.

(** C6, the claim as written, fails: the user picks the annotate action
    and selects the one suggestion, which is applied; the closing question
    is then answered with no, and the run ends with exit code 0 instead of
    showing the menu again. Answered with yes, the menu is shown again,
    and with no suggestion left the annotate option is disabled. *)
Lemma annotate_declined_counterexample :
  (exists s', turn Git.lockingEditor oneSuggestion (annotateFirst (Answer false))
              = Exit 0 s'
              /\ suggestions s' = []
              /\ Fs.readFileSync (tree s') (js "f.js")
                 = Ok (js "function f() {" ++ [NL]
                          ++ js "  // TODO: [AI] name the constant" ++ [NL]
                          ++ js "  return 1;" ++ [NL] ++ js "}"))
  /\ (forall s', turn Git.lockingEditor oneSuggestion (annotateFirst (Answer false))
                 <> Menu s')
  /\ (exists s', turn Git.lockingEditor oneSuggestion (annotateFirst (Answer true))
                 = Menu s'
                 /\ selectable s' Issues = false).
Proof.
  split; [|split].
  - eexists. split; [vm_compute; reflexivity|]. split; vm_compute; reflexivity.
  - intros s' H. vm_compute in H. discriminate H.
  - eexists. split; [vm_compute; reflexivity|]. vm_compute. reflexivity.
Qed.

(** C6 (amended): the action menu is re-entrant. An edit whose temporary
    file can be written leads back to the menu, with the message replaced
    by the edited one. An annotate leads back to the menu when nothing
    was selected, and, after the selected suggestions were applied and the
    applied ones pruned, when the closing question is answered with yes
    and the renewed staging succeeds; it ends the run with exit code 0
    when that question is answered with no or cancelled. An error thrown
    by the write of the temporary file, by the injector or by the renewed
    staging is not caught and leaves the loop. So any sequence of such
    edits and of annotates confirmed in this way ends at the menu unless
    the injector threw, and the run exits only on commit, on cancel, on a
    cancelled prompt or on a declined closing question. The annotate
    option is disabled exactly when no suggestion is pending. *)
Theorem action_menu_reentrant (os : Fs.Os) (s : Session) :
  (forall t, choice t = Answer Edit ->
     (tempWritable t = true ->
      exists s', turn os s t = Menu s'
                 /\ suggestions s' = suggestions s
                 /\ restaged s' = restaged s
                 /\ currentMessage s'
                    = fst (Git.editCommitMessage os (tree s) (currentMessage s))
                 /\ tree s'
                    = snd (Git.editCommitMessage os (tree s) (currentMessage s)))
     /\ (tempWritable t = false -> turn os s t = Uncaught WRITE_FAILED))
  /\ (forall t selected, choice t = Answer Issues -> selection t = Answer selected ->
        (selected = [] -> turn os s t = Menu s)
        /\ (forall r, selected <> [] ->
               applySelected (suggestions s) (freshRound (tree s)) selected = Ok r ->
               (commitNow t = Answer true -> restageSucceeds t = true ->
                turn os s t = Menu (afterRestage (afterApply s r)))
               /\ (commitNow t = Answer true -> restageSucceeds t = false ->
                   turn os s t = Uncaught RESTAGE_FAILED)
               /\ (commitNow t <> Answer true ->
                   turn os s t = Exit 0 (afterApply s r)))
        /\ (forall m, selected <> [] ->
               applySelected (suggestions s) (freshRound (tree s)) selected = Throw m ->
               turn os s t = Uncaught m))
  /\ (forall turns, Forall (fun t => backToMenu t = true) turns ->
        (exists s', actionLoop os s turns = Menu s')
        \/ (exists m done t rest s0 selected,
               turns = done ++ t :: rest
               /\ actionLoop os s done = Menu s0
               /\ choice t = Answer Issues /\ selection t = Answer selected
               /\ applySelected (suggestions s0) (freshRound (tree s0)) selected
                  = Throw m
               /\ actionLoop os s turns = Uncaught m))
  /\ (forall t code s', turn os s t = Exit code s' ->
        (choice t = Cancelled /\ code = 0)
        \/ (choice t = Answer Cancel /\ code = 0)
        \/ (choice t = Answer Commit /\ code = if commitSucceeds t then 0 else 1)
        \/ (choice t = Answer Issues /\ code = 0
            /\ (selection t = Cancelled
                \/ commitNow t = Answer false \/ commitNow t = Cancelled)))
  /\ (selectable s Issues = false <-> suggestions s = []).
Proof.
  split; [|split; [|split; [|split]]].
  - intros t Ht. rewrite (turn_edit os s t Ht). split; intros ->; [|reflexivity].
    exists (afterEdit os s). destruct (afterEdit_fields os s) as (Hm & Ht' & Hs & Hr).
    repeat split; assumption.
  - intros t selected Hc Hs.
    assert (Hturn : turn os s t = annotate s selected (commitNow t) (restageSucceeds t)).
    { unfold turn. now rewrite Hc, Hs. }
    rewrite Hturn. split; [|split].
    + intros ->. apply annotate_empty.
    + intros r Hne Hr. rewrite (annotate_applied _ _ _ _ _ Hne Hr).
      split; [|split].
      * now intros -> ->.
      * now intros -> ->.
      * intros Hno. destruct (commitNow t) as [|[|]]; [reflexivity|congruence|reflexivity].
    + intros m Hne Hr. now apply annotate_throws.
  - intros turns Hall. now apply actionLoop_reentrant.
  - intros t code s'. apply turn_exit.
  - exact (proj1 (proj2 (menu_issues_disabled s))).
Qed.

Lemma action_menu_reentrant_witness :
  exists s',
    actionLoop (Git.typingEditor (js "feat: add f, named")) oneSuggestion
               [editTurn; annotateFirst (Answer true); editTurn]
    = Menu s'.
Proof.
  destruct (proj1 (proj2 (proj2 (action_menu_reentrant
              (Git.typingEditor (js "feat: add f, named")) oneSuggestion)))
              [editTurn; annotateFirst (Answer true); editTurn])
    as [H|(m & done & t & rest & s0 & selected & _ & _ & _ & _ & _ & H)].
  - repeat constructor.
  - exact H.
  - vm_compute in H. discriminate H.
Defined.

(** * Further properties of the sources *)

Import Text.

(** ** White space *)

Lemma trimStart_app_ws (a b : jsstring) :
  Forall (fun c => isWhiteSpace c = true) a -> trimStart (a ++ b) = trimStart b.
Proof.
  induction 1 as [|c a Hc _ IH]; [reflexivity|]. simpl. now rewrite Hc.
Qed.

Lemma trimStart_keeps (c : N) (s : jsstring) :
  isWhiteSpace c = false -> trimStart (c :: s) = c :: s.
Proof. intros Hc. simpl. now rewrite Hc. Qed.

Lemma trimStart_idem (s : jsstring) : trimStart (trimStart s) = trimStart s.
Proof.
  induction s as [|c s IH]; [reflexivity|]. simpl.
  destruct (isWhiteSpace c) eqn:Hc; [exact IH|]. simpl. now rewrite Hc.
Qed.

Lemma trimStart_suffix (s : jsstring) : exists a, s = a ++ trimStart s.
Proof.
  induction s as [|c s [a Ha]]; [now exists []|]. simpl.
  destruct (isWhiteSpace c).
  - exists (c :: a). simpl. now rewrite <- Ha.
  - now exists [].
Qed.

Lemma trimEnd_prefix (s : jsstring) : exists b, s = trimEnd s ++ b.
Proof.
  unfold trimEnd. destruct (trimStart_suffix (rev s)) as [a Ha].
  exists (rev a). rewrite <- rev_app_distr, <- Ha. now rewrite rev_involutive.
Qed.

Lemma trimEnd_idem (s : jsstring) : trimEnd (trimEnd s) = trimEnd s.
Proof. unfold trimEnd. now rewrite rev_involutive, trimStart_idem. Qed.

Lemma trimEnd_app_ws (s w : jsstring) :
  Forall (fun c => isWhiteSpace c = true) w -> trimEnd (s ++ w) = trimEnd s.
Proof.
  intros Hw. unfold trimEnd. rewrite rev_app_distr, trimStart_app_ws;
    [reflexivity|]. now apply Forall_rev.
Qed.

Lemma trimStart_In (c : N) (s : jsstring) :
  In c s -> isWhiteSpace c = false -> In c (trimStart s).
Proof.
  intros Hin Hc. induction s as [|d s IH]; [contradiction|]. simpl.
  destruct (isWhiteSpace d) eqn:Hd; [|exact Hin].
  destruct Hin as [->|Hin]; [congruence|now apply IH].
Qed.

(** A text with a unit that is not white space does not trim to nothing. *)
Lemma trim_truthy (c : N) (s : jsstring) :
  In c s -> isWhiteSpace c = false -> truthy (trim s) = true.
Proof.
  intros Hin Hc. unfold trim, trimEnd.
  assert (H : In c (rev (trimStart (rev (trimStart s))))).
  { apply -> in_rev. apply trimStart_In; [|exact Hc].
    apply -> in_rev. now apply trimStart_In. }
  destruct (rev (trimStart (rev (trimStart s)))); [contradiction|reflexivity].
Qed.

Lemma trimEnd_noNL (s : jsstring) : noNL s -> noNL (trimEnd s).
Proof.
  intros Hs Hin. apply Hs. destruct (trimEnd_prefix s) as [b Hb].
  rewrite Hb. apply in_or_app. now left.
Qed.

(** ** More on the text layout *)





Lemma chars_width_le_4 (p ch : jsstring) :
  In ch (chars p) -> getVisualWidth ch <= 4.
Proof.
  intros Hin. destruct (chars_shape p ch Hin) as [[c ->]|(h & l & -> & Hh & Hl)].
  - rewrite getVisualWidth_cons. pose proof (unitWidth_pos c).
    change (getVisualWidth []) with 0. lia.
  - rewrite (surrogate_pair_width h l Hh Hl). lia.
Qed.

(** X2: with an explicit limit of at least 4, no line of the text
    returned by [wrapText] is wider than the limit, whatever the text:
    Latin, wide or outside the Basic Multilingual Plane. *)
Theorem wrapText_width_any_text (text : jsstring) (L : Z) (pr : option Process) :
  4 <= L ->
  Forall (fun line => getVisualWidth line <= L) (split_nl (wrapText text (Some L) pr)).
Proof.
  intros HL. destruct (truthy text) eqn:Ht.
  - rewrite wrapText_lines by assumption.
    pose proof (wrapLines_width text (Some L) pr) as H.
    rewrite wrapLimit_explicit in H by lia. apply H; [|lia].
    apply List.Forall_forall. intros p _. apply List.Forall_forall. intros ch Hch.
    pose proof (chars_width_le_4 p ch Hch). lia.
  - unfold wrapText. rewrite Ht. constructor; [|constructor].
    change (0 <= L). lia.
Qed.

Lemma wrapText_width_any_text_witness :
  Forall (fun line => getVisualWidth line <= 5)
         (split_nl (wrapText (CAT ++ js "cat" ++ HANGUL_HAN ++ CAT) (Some 5) termUnknown)).
Proof.
  refine (wrapText_width_any_text (CAT ++ js "cat" ++ HANGUL_HAN ++ CAT) 5
            termUnknown _).
  lia.
Defined.

(** X3: a text none of whose lines is wider than the limit in force is
    returned unchanged by [wrapText]. *)
Theorem wrapText_fitting_text (text : jsstring) (mw : option Z) (pr : option Process) :
  Forall (fun p => getVisualWidth p <= wrapLimit mw pr) (split_nl text) ->
  wrapText text mw pr = text.
Proof.
  intros Hfit. unfold wrapText. destruct (truthy text) eqn:Ht;
    [|destruct text; [reflexivity|discriminate]].
  rewrite <- (join_split_nl text) at 2. f_equal.
  unfold wrapLines. induction Hfit as [|p ps Hp _ IH]; [reflexivity|].
  simpl. rewrite IH. unfold wrapParagraph.
  rewrite wrapChars_fits; rewrite chars_concat; [reflexivity|lia].
Qed.

Lemma wrapText_fitting_text_witness :
  wrapText (js "fix: typo" ++ [NL; NL] ++ js "- in the README") (Some 20) termUnknown
  = js "fix: typo" ++ [NL; NL] ++ js "- in the README".
Proof.
  refine (wrapText_fitting_text _ (Some 20) termUnknown _).
  repeat constructor; vm_compute; discriminate.
Defined.

Lemma widestLine_fold_le (lines : list jsstring) (acc b : Z) :
  acc <= b -> Forall (fun l => getVisualWidth l <= b) lines ->
  fold_left (fun contentWidth l =>
               let w := getVisualWidth l in
               if w >? contentWidth then w else contentWidth) lines acc <= b.
Proof.
  cbv zeta. intros Hacc Hall. revert acc Hacc.
  induction Hall as [|l lines Hl _ IH]; intros acc Hacc; simpl; [exact Hacc|].
  apply IH. destruct (getVisualWidth l >? acc); lia.
Qed.

Lemma boxRows_width (title text : jsstring) (pr : option Process) :
  Forall (fun row => rowWidth row = boxWidth title text pr + 2)
         (boxRows title text pr).
Proof.
  pose proof (boxLines_fit title text pr) as Hfit.
  pose proof (getVisualWidth_nonneg title) as Htitle.
  assert (Ht : getVisualWidth title + 4 <= boxWidth title text pr).
  { unfold boxWidth, contentWidth. lia. }
  unfold boxRows. cbv zeta. simpl. constructor; [|apply Forall_app; split].
  - unfold rowWidth, topPieces. simpl. rewrite len_repeat_unit.
    unfold rightDashes, len. simpl. lia.
  - apply Forall_map. eapply List.Forall_impl; [|exact Hfit].
    intros l Hl. cbn beta in Hl. unfold rowWidth, contentPieces. simpl.
    rewrite len_repeat_unit. unfold padding, len. simpl. lia.
  - constructor; [|constructor]. unfold rowWidth, bottomPieces. simpl.
    rewrite len_repeat_unit. unfold len. simpl. lia.
Qed.

(** X4: on a terminal of at least 5 columns, the box drawn around an
    ASCII text fits the terminal as soon as the title leaves room for its
    own frame: when the title is at most [columns - 6] wide, no row of
    the box is wider than the terminal. *)
Theorem boxMessage_fits_terminal (title text : jsstring) (cols : Z) :
  Forall isAscii text -> 5 <= cols -> getVisualWidth title + 6 <= cols ->
  Forall (fun row => rowWidth row <= cols) (boxRows title text (term cols)).
Proof.
  intros Hascii Hcols Htitle.
  assert (Hterm : terminalColumns (term cols) = cols).
  { unfold terminalColumns, term. simpl. destruct (Z.eqb_spec cols 0); [lia|reflexivity]. }
  assert (Hlines : Forall (fun l => getVisualWidth l <= Z.min 80 (cols - 4))
                          (boxLines text (term cols))).
  { unfold boxLines, maxContentWidth. rewrite Hterm.
    apply wrapText_ascii_width; [exact Hascii|lia]. }
  assert (Hwide : widestLine (boxLines text (term cols)) <= Z.min 80 (cols - 4)).
  { unfold widestLine. apply widestLine_fold_le; [lia|exact Hlines]. }
  eapply List.Forall_impl; [|apply boxRows_width].
  intros row Hrow. cbn beta in Hrow. rewrite Hrow.
  unfold boxWidth, contentWidth. lia.
Qed.

Lemma boxMessage_fits_terminal_witness :
  Forall (fun row => rowWidth row <= 60)
         (boxRows (js "AI Error") (js "[429 Too Many Requests] Quota exceeded")
                  (term 60)).
Proof.
  refine (boxMessage_fits_terminal (js "AI Error")
            (js "[429 Too Many Requests] Quota exceeded") 60 _ _ _).
  - unfold isAscii. repeat constructor.
  - lia.
  - vm_compute. discriminate.
Defined.

(** ** The banner *)

Import Title.

Lemma cleanTitle_split (raw : jsstring) :
  split_nl (cleanTitle raw) = map trimEnd (split_nl raw).
Proof.
  unfold cleanTitle. apply split_join_nl.
  - pose proof (split_nl_nonempty raw) as Hn.
    destruct (split_nl raw); [congruence|discriminate].
  - apply Forall_map. eapply List.Forall_impl; [|apply split_nl_noNL].
    intros l Hl. now apply trimEnd_noNL.
Qed.

(** X5: [cleanTitle] keeps the number of lines of the art and leaves no
    line that ends in white space; cleaning an art that was already
    cleaned changes nothing. *)
Theorem cleanTitle_trims_lines (raw : jsstring) :
  split_nl (cleanTitle raw) = map trimEnd (split_nl raw)
  /\ length (split_nl (cleanTitle raw)) = length (split_nl raw)
  /\ Forall (fun l => trimEnd l = l) (split_nl (cleanTitle raw))
  /\ cleanTitle (cleanTitle raw) = cleanTitle raw.
Proof.
  pose proof (cleanTitle_split raw) as Hs.
  split; [exact Hs|]. split; [rewrite Hs; apply length_map|]. split.
  - rewrite Hs. apply Forall_map. apply List.Forall_forall.
    intros l _. apply trimEnd_idem.
  - unfold cleanTitle at 1. rewrite Hs, map_map. unfold cleanTitle. f_equal.
    apply List.map_ext. intros l. apply trimEnd_idem.
Qed.

Lemma maxLength_fold (lines : list jsstring) (acc : Z) :
  exists m,
    fold_left (fun m l => Some (match m with
                                | Some x => Z.max x (len l)
                                | None => len l
                                end)) lines (Some acc) = Some m
    /\ acc <= m
    /\ Forall (fun l => len l <= m) lines
    /\ (m = acc \/ Exists (fun l => len l = m) lines).
Proof.
  revert acc. induction lines as [|l lines IH]; intros acc; simpl.
  - exists acc. repeat split; [lia|constructor|now left].
  - destruct (IH (Z.max acc (len l))) as (m & Hm & Hle & Hall & Hex).
    exists m. split; [exact Hm|]. split; [lia|]. split.
    + constructor; [lia|exact Hall].
    + destruct Hex as [->|Hex]; [|right; now constructor 2].
      destruct (Z.max_spec acc (len l)) as [[_ ->]|[_ ->]];
        [right; now constructor 1|now left].
Qed.

Lemma maxLength_spec (lines : list jsstring) :
  lines <> [] ->
  exists m, maxLength lines = Some m
            /\ Forall (fun l => len l <= m) lines
            /\ Exists (fun l => len l = m) lines.
Proof.
  destruct lines as [|l lines]; [congruence|]. intros _.
  unfold maxLength. simpl.
  destruct (maxLength_fold lines (len l)) as (m & Hm & Hle & Hall & Hex).
  exists m. split; [exact Hm|]. split.
  - constructor; [lia|exact Hall].
  - destruct Hex as [->|Hex]; [now constructor 1|now constructor 2].
Qed.

(** X6: on a terminal of known width [printTitle] prints the art only
    when every line of the cleaned art leaves a margin of 4 columns, and
    the fallback only when some line does not; the art it prints is the
    cleaned one. Without the art file it prints the fallback. *)
Theorem printTitle_respects_width (raw : jsstring) (cols : Z) :
  match printTitle (Some raw) (Some cols) with
  | Art title =>
      title = cleanTitle raw
      /\ Forall (fun l => len l + 4 <= cols) (split_nl title)
  | Fallback =>
      Exists (fun l => cols < len l + 4) (split_nl (cleanTitle raw))
  end
  /\ printTitle None (Some cols) = Fallback.
Proof.
  split; [|reflexivity]. unfold printTitle.
  destruct (maxLength_spec (split_nl (cleanTitle raw)) (split_nl_nonempty _))
    as (m & -> & Hall & Hex).
  destruct (Z.ltb_spec cols (m + 4)) as [Hlt|Hge].
  - eapply List.Exists_impl; [|exact Hex]. intros l Hl. cbn beta in Hl. lia.
  - split; [reflexivity|]. eapply List.Forall_impl; [|exact Hall].
    intros l Hl. cbn beta in Hl. lia.
Qed.

(** ** More on the diff collector *)

Lemma getFileDiff_Diff (W : World) (file content : jsstring) :
  getFileDiff W file = Diff content ->
  isIgnored file = false /\ isBinary file = false
  /\ (exists size, statSize W file = Ok size /\ size <= MAX_FILE_SIZE)
  /\ execSync W (diffCommand file) = Ok content
  /\ len content <= MAX_FILE_SIZE.
Proof.
  unfold getFileDiff.
  destruct (statSize W file) as [size|m]; [|discriminate].
  destruct (isIgnored file); [discriminate|].
  destruct (isBinary file); [discriminate|].
  destruct (Z.gtb_spec size MAX_FILE_SIZE); [discriminate|].
  destruct (execSync W (diffCommand file)) as [diff|m]; [|discriminate].
  destruct (Z.gtb_spec (len diff) MAX_FILE_SIZE); [discriminate|].
  intros [= <-]. repeat split; eauto.
Qed.

Lemma includedOf_In (W : World) (files : list jsstring) (total : Z)
      (file content : jsstring) :
  In (file, content) (includedOf (trace W total files)) ->
  In file files /\ getFileDiff W file = Diff content.
Proof.
  revert total. induction files as [|f files IH]; intros total; [intros []|].
  rewrite trace_cons. unfold includedOf. cbn [flat_map fst snd].
  fold (includedOf (trace W (grow total (verdictAt W total f)) files)).
  intros Hin. apply in_app_or in Hin as [Hin|Hin].
  - unfold verdictAt in Hin.
    destruct (total >=? MAX_TOTAL_SIZE); [contradiction|].
    destruct (getFileDiff W f) as [reason|c] eqn:Hd; [contradiction|].
    destruct (total + len c >? MAX_TOTAL_SIZE); [contradiction|].
    destruct Hin as [[= <- <-]|[]]. split; [now left|exact Hd].
  - destruct (IH _ Hin) as [Hf Hd]. split; [now right|exact Hd].
Qed.

(** X7: the payload only holds what the per-file filters let through:
    every diff included by the collector belongs to a staged file that
    matches no ignore pattern and has no binary extension, whose size on
    disk and whose diff are both at most 30000, and the payload is made
    of these diffs. *)
Theorem collect_includes_filtered_only (W : World) (files : list jsstring) :
  fullDiff (collect W files)
  = concat (map (fun fc => diffBlock (fst fc) (snd fc))
                (includedOf (trace W 0 files)))
  /\ forall file content,
       In (file, content) (includedOf (trace W 0 files)) ->
       In file files
       /\ isIgnored file = false /\ isBinary file = false
       /\ (exists size, statSize W file = Ok size /\ size <= 30000)
       /\ execSync W (diffCommand file) = Ok content
       /\ len content <= 30000.
Proof.
  split; [exact (proj1 (collect_trace W files))|].
  intros file content Hin. destruct (includedOf_In _ _ _ _ _ Hin) as [Hf Hd].
  split; [exact Hf|]. exact (getFileDiff_Diff _ _ _ Hd).
Qed.

Lemma collect_includes_filtered_only_witness :
  len (text 5000) <= 30000.
Proof.
  refine (proj2 (proj2 (proj2 (proj2 (proj2
            (proj2 (collect_includes_filtered_only (tableWorld fiveFiles)
                      [js "a.txt"; js "b.txt"; js "c.txt"; js "d.txt"; js "e.txt"])
                   (js "e.txt") (text 5000) _)))))).
  rewrite fiveFiles_trace. cbn [includedOf flat_map snd fst app].
  right. right. right. now left.
Defined.

Lemma trace_partition (W : World) (files : list jsstring) (total : Z) :
  (length (skippedOf (trace W total files))
   + length (includedOf (trace W total files)) = length files)%nat.
Proof.
  revert total. induction files as [|f files IH]; intros total; [reflexivity|].
  rewrite trace_cons. unfold skippedOf, includedOf. cbn [flat_map fst snd].
  fold (skippedOf (trace W (grow total (verdictAt W total f)) files)).
  fold (includedOf (trace W (grow total (verdictAt W total f)) files)).
  rewrite !length_app. specialize (IH (grow total (verdictAt W total f))).
  destruct (verdictAt W total f); cbn [grow length] in *; lia.
Qed.

Lemma collect_partition (W : World) (files : list jsstring) :
  len (skippedFiles (collect W files)) + len (includedOf (trace W 0 files))
  = len files.
Proof.
  destruct (collect_trace W files) as (_ & _ & ->).
  unfold len. rewrite length_map.
  pose proof (trace_partition W files 0). lia.
Qed.

(** X8: the collector accounts for every staged file exactly once, in
    the order of the listing: each file is either reported in the skipped
    list, as its name followed by the reason in brackets, or has its diff
    in the payload, and the two counts add up to the number of files. *)
Theorem collect_accounts_for_all (W : World) (files : list jsstring) :
  map fst (trace W 0 files) = files
  /\ skippedFiles (collect W files)
     = map (fun fr => skipEntry (fst fr) (snd fr)) (skippedOf (trace W 0 files))
  /\ len (skippedFiles (collect W files)) + len (includedOf (trace W 0 files))
     = len files.
Proof.
  split; [apply trace_files|]. split; [|apply collect_partition].
  exact (proj2 (proj2 (collect_trace W files))).
Qed.

(** X9: the run ends with nothing to review exactly when no diff was
    included, that is when every staged file was skipped. *)
Theorem noValidChanges_iff_all_skipped (W : World) (files : list jsstring) :
  (CliV2.noValidChanges (collect W files) = true
   <-> includedOf (trace W 0 files) = [])
  /\ (CliV2.noValidChanges (collect W files) = true
      <-> len (skippedFiles (collect W files)) = len files).
Proof.
  assert (H : CliV2.noValidChanges (collect W files) = true
              <-> includedOf (trace W 0 files) = []).
  { unfold CliV2.noValidChanges. destruct (collect_trace W files) as (-> & _ & _).
    destruct (includedOf (trace W 0 files)) as [|[f c] rest].
    - split; reflexivity.
    - split; [|discriminate]. intros Hblank. exfalso.
      apply negb_true_iff in Hblank.
      rewrite (trim_truthy 45%N) in Hblank; [discriminate| |reflexivity].
      simpl. now left. }
  split; [exact H|]. rewrite H.
  pose proof (collect_partition W files) as Hacc. unfold len in *.
  split.
  - intros Hnil. rewrite Hnil in Hacc. simpl in Hacc. lia.
  - intros Hall. destruct (includedOf (trace W 0 files)); [reflexivity|].
    simpl length in Hacc. lia.
Qed.

(** ** The staged listing and the flags of the single-file tool *)

Import CliV2.

Lemma plainName_spec (n : jsstring) :
  plainName n = true ->
  noNL n
  /\ (exists c rest, n = c :: rest /\ isWhiteSpace c = false)
  /\ (exists c rest, rev n = c :: rest /\ isWhiteSpace c = false).
Proof.
  unfold plainName, startsClean. intros H.
  apply andb_true_iff in H as [H Hnl]. apply andb_true_iff in H as [Hs He].
  split; [|split].
  - intros Hin. rewrite forallb_forall in Hnl. specialize (Hnl NL Hin).
    rewrite N.eqb_refl in Hnl. discriminate.
  - destruct n as [|c rest]; [discriminate|]. exists c, rest.
    split; [reflexivity|]. now apply negb_true_iff.
  - destruct (rev n) as [|c rest]; [discriminate|]. exists c, rest.
    split; [reflexivity|]. now apply negb_true_iff.
Qed.

Lemma join_nl_app_last (init : list jsstring) (last : jsstring) :
  exists x, join_nl (init ++ [last]) = x ++ last.
Proof.
  induction init as [|l init [x Hx]]; [now exists []|].
  destruct init as [|l' init'].
  - exists (l ++ [NL]). simpl. now rewrite <- app_assoc.
  - exists (l ++ NL :: x).
    change (join_nl ((l :: l' :: init') ++ [last]))
      with (l ++ NL :: join_nl ((l' :: init') ++ [last])).
    rewrite Hx, <- app_assoc. reflexivity.
Qed.

(** A listing of plain names survives [trim]. *)
Lemma trim_listing (names : list jsstring) :
  names <> [] -> Forall (fun n => plainName n = true) names ->
  trim (join_nl names ++ [NL]) = join_nl names.
Proof.
  intros Hne Hall. unfold trim.
  assert (Hstart : trimStart (join_nl names ++ [NL]) = join_nl names ++ [NL]).
  { destruct names as [|n rest]; [congruence|].
    inversion Hall as [|? ? Hn _]; subst.
    destruct (plainName_spec n Hn) as (_ & (c & r & -> & Hc) & _).
    destruct rest; simpl; now rewrite Hc. }
  rewrite Hstart. rewrite trimEnd_app_ws by (repeat constructor).
  destruct (exists_last Hne) as (init & last & ->).
  apply Forall_app in Hall as [_ Hlast]. inversion Hlast as [|? ? Hl _]; subst.
  destruct (plainName_spec last Hl) as (_ & _ & (c & r & Hrev & Hc)).
  destruct (join_nl_app_last init last) as [x ->].
  unfold trimEnd. rewrite rev_app_distr, Hrev. cbn [app].
  rewrite trimStart_keeps by exact Hc.
  change (c :: r ++ rev x) with ((c :: r) ++ rev x).
  rewrite <- Hrev, <- rev_app_distr. apply rev_involutive.
Qed.

(** X10: [getStagedFiles] reads back what git lists: when the command
    prints names that are not empty, hold no line feed and neither start
    nor end with white space, one per line, the result is the list of
    these names, in order (the empty list for an empty listing); when
    the command fails the result is the empty list, and in no case does
    the result hold an empty name. *)
Theorem getStagedFiles_round_trip (W : World) :
  (forall names,
      execSync W (js "git diff --staged --name-only") = Ok (join_nl names ++ [NL]) ->
      Forall (fun n => plainName n = true) names ->
      getStagedFiles W = names)
  /\ (forall m, execSync W (js "git diff --staged --name-only") = Throw m ->
                getStagedFiles W = [])
  /\ Forall (fun n => n <> []) (getStagedFiles W).
Proof.
  unfold getStagedFiles. split; [|split].
  - intros names -> Hall. destruct names as [|n rest] eqn:E; [reflexivity|].
    rewrite <- E in *. assert (Hne : names <> []) by (subst; discriminate).
    rewrite (trim_listing names Hne Hall).
    rewrite split_join_nl; [|exact Hne|].
    + clear E Hne. induction Hall as [|x l Hx _ IH]; [reflexivity|].
      simpl. destruct (plainName_spec x Hx) as (_ & (c & r & -> & _) & _).
      simpl. now rewrite IH.
    + eapply List.Forall_impl; [|exact Hall].
      intros x Hx. exact (proj1 (plainName_spec x Hx)).
  - intros m ->. reflexivity.
  - destruct (execSync W _) as [output|m]; [|constructor].
    apply List.Forall_forall. intros n Hn. apply filter_In in Hn as [_ Hn].
    now destruct n.
Qed.

Lemma getStagedFiles_round_trip_witness :
  getStagedFiles
    {| statSize := fun _ => Ok 100;
       execSync := fun _ => Ok (join_nl [js "src/utils.js"; js "my notes.md"] ++ [NL]) |}
  = [js "src/utils.js"; js "my notes.md"].
Proof.
  refine (proj1 (getStagedFiles_round_trip _) [js "src/utils.js"; js "my notes.md"] _ _).
  - reflexivity.
  - repeat constructor.
Defined.

Lemma argStep_korean (fl : Flags) (arg : jsstring) :
  useKorean (argStep fl arg) = useKorean fl || asksKorean arg.
Proof.
  unfold argStep, asksKorean.
  destruct (bool_decide (arg = js "-k") || bool_decide (arg = js "--korean"));
    destruct (isCombined arg); destruct (includes arg (js "k"));
    destruct (useKorean fl); reflexivity.
Qed.

Lemma parseArgs_korean_from (args : list jsstring) (fl : Flags) :
  useKorean (fold_left argStep args fl) = useKorean fl || existsb asksKorean args.
Proof.
  revert fl. induction args as [|arg args IH]; intros fl; simpl.
  - now rewrite orb_false_r.
  - rewrite IH, argStep_korean. now rewrite orb_assoc.
Qed.

(** X11: the flags of the single-file tool. The Korean mode is on
    exactly when some argument asks for it (-k, --korean, or a group of
    letters behind one dash that holds a k), wherever it stands among the
    arguments. For the model the last word counts: a final -l or --lite
    selects the lite model and a final -f or --flash the flash model,
    whatever came before; a final group of letters that holds an l
    selects the lite model even when it also holds an f. *)
Theorem parseArgs_flags (args : list jsstring) :
  useKorean (parseArgs args) = existsb asksKorean args
  /\ useFlash (parseArgs (args ++ [js "-l"])) = false
  /\ useFlash (parseArgs (args ++ [js "--lite"])) = false
  /\ useFlash (parseArgs (args ++ [js "-f"])) = true
  /\ useFlash (parseArgs (args ++ [js "--flash"])) = true
  /\ (forall group, isCombined group = true -> includes group (js "l") = true ->
                    useFlash (parseArgs (args ++ [group])) = false).
Proof.
  split; [apply parseArgs_korean_from|].
  unfold parseArgs. repeat split; try intros group Hg Hl;
    rewrite fold_left_app; cbn [fold_left];
    destruct (fold_left argStep args _) as [f k].
  1-4: destruct f, k; vm_compute; reflexivity.
  unfold argStep. rewrite Hg, Hl. reflexivity.
Qed.

Lemma parseArgs_flags_witness :
  useFlash (parseArgs ([js "--flash"] ++ [js "-kfl"])) = false.
Proof.
  refine (proj2 (proj2 (proj2 (proj2 (proj2 (parseArgs_flags [js "--flash"])))))
            (js "-kfl") _ _); reflexivity.
Defined.

(** ** The payload of the command-line tool *)

Import Main.

(** X12: the [getFileDiff] of src/git.js always gives some text for the
    payload, never the empty string, and which text is decided in this
    order: for a path with a binary extension the note [(Binary file:
    path)], else for a path that holds an ignore pattern the note
    [(Ignored file: path)], both whatever git would answer; else the
    staged diff when git gives one that is not empty, the note [(No
    content change or new empty file: path)] when the diff is empty, and
    the note [(Error reading diff for path: message)] when the command
    fails. *)
Theorem git_getFileDiff_never_empty (W : World) (filePath : jsstring) :
  truthy (Git.getFileDiff W filePath) = true
  /\ (arrayIncludes Config.BINARY_EXTENSIONS (toLowerCase (extname filePath)) = true ->
      Git.getFileDiff W filePath = js "(Binary file: " ++ filePath ++ js ")")
  /\ (arrayIncludes Config.BINARY_EXTENSIONS (toLowerCase (extname filePath)) = false ->
      (existsb (fun p => includes filePath p) Config.IGNORE_PATTERNS = true ->
       Git.getFileDiff W filePath = js "(Ignored file: " ++ filePath ++ js ")")
      /\ (existsb (fun p => includes filePath p) Config.IGNORE_PATTERNS = false ->
          (forall diff, execSync W (Git.diffCommand filePath) = Ok diff ->
                        diff <> [] -> Git.getFileDiff W filePath = diff)
          /\ (execSync W (Git.diffCommand filePath) = Ok [] ->
              Git.getFileDiff W filePath
              = js "(No content change or new empty file: " ++ filePath ++ js ")")
          /\ (forall m, execSync W (Git.diffCommand filePath) = Throw m ->
                        Git.getFileDiff W filePath
                        = js "(Error reading diff for " ++ filePath ++ js ": "
                             ++ m ++ js ")"))).
Proof.
  unfold Git.getFileDiff. cbv zeta. split; [|split].
  - destruct (arrayIncludes _ _); [reflexivity|].
    destruct (existsb _ _); [reflexivity|].
    destruct (execSync W _) as [diff|m]; [|reflexivity].
    destruct diff; reflexivity.
  - now intros ->.
  - intros ->. split; [now intros ->|]. intros ->. split; [|split].
    + intros diff -> Hne. destruct diff; [congruence|reflexivity].
    + now intros ->.
    + now intros m ->.
Qed.

Lemma git_getFileDiff_never_empty_witness :
  Git.getFileDiff deletedWorld (js "assets/logo.PNG")
  = js "(Binary file: " ++ js "assets/logo.PNG" ++ js ")".
Proof.
  refine (proj1 (proj2 (git_getFileDiff_never_empty deletedWorld
                          (js "assets/logo.PNG"))) _).
  vm_compute. reflexivity.
Defined.

Lemma buildDiffFrom_keeps (W : World) (files : list jsstring) (acc : jsstring) (c : N) :
  In c acc -> In c (buildDiffFrom W acc files).
Proof.
  revert acc. induction files as [|f files IH]; intros acc Hin; [exact Hin|].
  unfold buildDiffFrom. cbn [fold_left]. apply IH.
  destruct (truthy f); [|exact Hin]. apply in_or_app. now left.
Qed.

Lemma buildDiffFrom_header (W : World) (files : list jsstring) (acc : jsstring) :
  existsb truthy files = true -> In 70%N (buildDiffFrom W acc files).
Proof.
  revert acc. induction files as [|f files IH]; intros acc; [discriminate|].
  unfold buildDiffFrom. cbn [fold_left existsb].
  destruct (truthy f); cbn [orb].
  - intros _. apply buildDiffFrom_keeps. apply in_or_app. right.
    unfold diffEntry. simpl. now left.
  - apply IH.
Qed.

Lemma buildDiffFrom_empty_names (W : World) (files : list jsstring) (acc : jsstring) :
  existsb truthy files = false -> buildDiffFrom W acc files = acc.
Proof.
  revert acc. induction files as [|f files IH]; intros acc; [reflexivity|].
  unfold buildDiffFrom. cbn [fold_left existsb].
  destruct (truthy f); [discriminate|]. apply IH.
Qed.

(** X13: the payload built by the command-line tool is blank exactly
    when the listing holds no name that is not empty: a single staged
    name is enough for a payload that does not trim to nothing, whatever
    git answers for it. *)
Theorem buildDiff_blank_iff (W : World) (stagedFiles : list jsstring) :
  truthy (trim (buildDiff W stagedFiles)) = existsb truthy stagedFiles.
Proof.
  unfold buildDiff. destruct (existsb truthy stagedFiles) eqn:E.
  - apply (trim_truthy 70%N); [now apply buildDiffFrom_header|reflexivity].
  - now rewrite buildDiffFrom_empty_names.
Qed.

(** ** More on the suggestion injector *)

Lemma leadingWhiteSpace_ws (s : jsstring) :
  Forall (fun c => isWhiteSpace c = true) (leadingWhiteSpace s).
Proof.
  induction s as [|c s IH]; simpl; [constructor|].
  destruct (isWhiteSpace c) eqn:Hc; [now constructor|constructor].
Qed.

Lemma leadingWhiteSpace_noNL (s : jsstring) : noNL s -> noNL (leadingWhiteSpace s).
Proof.
  induction s as [|c s IH]; simpl; intros Hs; [exact Hs|].
  destruct (isWhiteSpace c); [|intros []].
  intros [Hc|Hin]; [apply Hs; now left|].
  apply IH; [|exact Hin]. intros H. apply Hs. now right.
Qed.

Lemma noNL_app (a b : jsstring) : noNL a -> noNL b -> noNL (a ++ b).
Proof.
  unfold noNL. intros Ha Hb Hin. apply in_app_or in Hin as [H|H]; auto.
Qed.

Lemma getCommentSyntax_noNL (filePath message : jsstring) :
  noNL message -> noNL (Git.getCommentSyntax filePath message).
Proof.
  intros Hm. unfold Git.getCommentSyntax. cbv zeta.
  assert (Hlit : forall s, forallb (fun c => negb (c =? NL)%N) s = true -> noNL s).
  { intros s Hs Hin. rewrite forallb_forall in Hs. specialize (Hs NL Hin).
    rewrite N.eqb_refl in Hs. discriminate. }
  destruct (arrayIncludes _ _); [|destruct (arrayIncludes _ _);
                                  [|destruct (_ && _)]];
    repeat apply noNL_app; try exact Hm; apply Hlit; reflexivity.
Qed.

Lemma nth_error_nth_nil (lines : list jsstring) (i : nat) (l : jsstring) :
  nth_error lines i = Some l -> nth i lines [] = l.
Proof.
  revert i. induction lines as [|x lines IH]; intros [|i]; simpl;
    try discriminate; [now intros [= ->]|apply IH].
Qed.

Lemma nth_error_length (lines : list jsstring) (i : nat) (l : jsstring) :
  nth_error lines i = Some l -> (i < length lines)%nat.
Proof. intros H. apply nth_error_Some. congruence. Qed.

(** Where a successful injection puts the comment. *)
Lemma inject_inserts (item : Finding) (lines lines' : list jsstring) (todo : jsstring) :
  inject item lines todo = (lines', true) ->
  exists i indent target,
    nth_error lines i = Some target
    /\ Forall (fun c => isWhiteSpace c = true) indent
    /\ (noNL target -> noNL indent)
    /\ lines' = firstn i lines ++ (indent ++ todo) :: skipn i lines.
Proof.
  rewrite inject_priority. cbv zeta.
  destruct (present (contextLine item)) as [ctx|].
  - destruct (findIndex (fun l => includes l (trim ctx)) lines) as [i|] eqn:Hi.
    + intros [= <-]. destruct (findIndex_Some _ _ _ Hi) as [(l & Hl & _) _].
      exists i, (leadingWhiteSpace l), l. rewrite (nth_error_nth_nil _ _ _ Hl).
      split; [exact Hl|]. split; [apply leadingWhiteSpace_ws|].
      split; [apply leadingWhiteSpace_noNL|reflexivity].
    + destruct (present (lineNumber item)) as [number|]; [|discriminate].
      destruct (parseInt number) as [n|]; [|discriminate].
      unfold lineAt. destruct (n - 1 <? 0); [discriminate|].
      destruct (nth_error lines (Z.to_nat (n - 1))) as [line|] eqn:Hl;
        [|discriminate].
      destruct (truthy line); [|discriminate]. intros [= <-].
      exists (Z.to_nat (n - 1)), [], line.
      split; [exact Hl|]. split; [constructor|]. split; [intros _ []|reflexivity].
  - destruct (present (lineNumber item)) as [number|]; [|discriminate].
    destruct (parseInt number) as [n|]; [|discriminate].
    unfold lineAt. destruct (n - 1 <? 0); [discriminate|].
    destruct (nth_error lines (Z.to_nat (n - 1))) as [line|] eqn:Hl;
      [|discriminate].
    destruct (truthy line); [|discriminate]. intros [= <-].
    exists (Z.to_nat (n - 1)), [], line.
    split; [exact Hl|]. split; [constructor|]. split; [intros _ []|reflexivity].
Qed.

Lemma Forall_firstn_skipn (P : jsstring -> Prop) (lines : list jsstring) (i : nat)
      (x : jsstring) :
  Forall P lines -> P x -> Forall P (firstn i lines ++ x :: skipn i lines).
Proof.
  intros Hall Hx. rewrite <- (firstn_skipn i lines) in Hall.
  apply Forall_app in Hall as [Hfirst Hrest].
  apply Forall_app. split; [exact Hfirst|]. now constructor.
Qed.

(** X14: a successful injection adds exactly one line to the file of the
    finding and touches nothing else in it: for a message without line
    feed, the lines of the rewritten file are the lines of the file as it
    was read, in order, with one new line, the comment behind an indent
    made of white space only, placed in front of a line that was there. *)
Theorem applySuggestion_adds_one_line (fs fs' : Fs.t) (item : Finding) :
  applySuggestion fs item = Ok (fs', true) ->
  noNL (message item) ->
  exists content content' i indent,
    Fs.readFileSync fs (filePath item) = Ok content
    /\ Fs.readFileSync fs' (filePath item) = Ok content'
    /\ (i < length (split_nl content))%nat
    /\ Forall (fun c => isWhiteSpace c = true) indent
    /\ split_nl content'
       = firstn i (split_nl content)
           ++ (indent ++ Git.getCommentSyntax (filePath item) (message item))
           :: skipn i (split_nl content)
    /\ length (split_nl content') = S (length (split_nl content)).
Proof.
  unfold applySuggestion. intros Happly Hmsg.
  destruct (Fs.existsSync fs (filePath item)); cbn [negb] in Happly;
    [|discriminate].
  destruct (Fs.readFileSync fs (filePath item)) as [content|m] eqn:Hread;
    [|discriminate].
  destruct (inject item (split_nl content) _) as [lines' injected] eqn:Hinj.
  destruct injected; [|discriminate]. injection Happly as <-.
  destruct (inject_inserts _ _ _ _ Hinj) as (i & indent & target & Ht & Hws & Hnl & ->).
  assert (Htarget : noNL target).
  { pose proof (split_nl_noNL content) as Hall.
    rewrite List.Forall_forall in Hall. apply Hall. eapply nth_error_In, Ht. }
  set (todo := Git.getCommentSyntax (filePath item) (message item)) in *.
  set (lines' := firstn i (split_nl content) ++ (indent ++ todo) :: skipn i (split_nl content)).
  assert (Hsplit : split_nl (join_nl lines') = lines').
  { apply split_join_nl.
    - unfold lines'. destruct (firstn i (split_nl content)); discriminate.
    - apply Forall_firstn_skipn; [apply split_nl_noNL|].
      apply noNL_app; [now apply Hnl|now apply getCommentSyntax_noNL]. }
  exists content, (join_nl lines'), i, indent.
  split; [reflexivity|]. split.
  - unfold Fs.readFileSync, Fs.writeFileSync in *. rewrite lookup_insert_eq.
    destruct (fs !! filePath item) as [f|]; [|discriminate]. simpl.
    destruct (Fs.readable f); [reflexivity|discriminate].
  - split; [eapply nth_error_length, Ht|]. split; [exact Hws|].
    split; [exact Hsplit|]. rewrite Hsplit. unfold lines'.
    rewrite length_app. simpl length.
    rewrite <- (firstn_skipn i (split_nl content)) at 3. rewrite length_app. lia.
Qed.

Lemma applySuggestion_adds_one_line_witness :
  exists content content' i indent,
    Fs.readFileSync {[ js "f.js" := sourceFile threeLines ]} (filePath byContext)
    = Ok content
    /\ Fs.readFileSync
         (Fs.writeFileSync {[ js "f.js" := sourceFile threeLines ]} (js "f.js")
            (js "function f() {" ++ [NL] ++ js "  // TODO: [AI] name the constant"
                ++ [NL] ++ js "  return 1;" ++ [NL] ++ js "}"))
         (filePath byContext) = Ok content'
    /\ (i < length (split_nl content))%nat
    /\ Forall (fun c => isWhiteSpace c = true) indent
    /\ split_nl content'
       = firstn i (split_nl content)
           ++ (indent ++ Git.getCommentSyntax (filePath byContext) (message byContext))
           :: skipn i (split_nl content)
    /\ length (split_nl content') = S (length (split_nl content)).
Proof.
  refine (applySuggestion_adds_one_line _ _ byContext _ _).
  - vm_compute. reflexivity.
  - unfold noNL. vm_compute. intuition discriminate.
Defined.

(** ** More on the edit flow *)

(** X15: an edit that goes well leaves the working tree as it found it:
    when no file occupies the temporary path and the editor does nothing
    but save a text in the file it was given, [editCommitMessage] returns
    that text trimmed and the files on disk are exactly those from before
    the call. *)
Theorem editCommitMessage_round_trip (os : Fs.Os) (fs : Fs.t) (msg saved : jsstring) :
  fs !! Git.tempFile os = None ->
  Fs.spawnSync os (Git.editorOf os) [Git.tempFile os]
               (Fs.writeFileSync fs (Git.tempFile os) msg)
  = Ok (Fs.writeFileSync (Fs.writeFileSync fs (Git.tempFile os) msg)
                         (Git.tempFile os) saved) ->
  Git.editCommitMessage os fs msg = (trim saved, fs).
Proof.
  intros Hfree Hspawn.
  pose proof (editCommitMessage_paths os fs msg) as E. cbv zeta in E.
  rewrite E, Hspawn. unfold Fs.writeFileSync.
  rewrite !lookup_insert_eq, Hfree. simpl.
  rewrite insert_insert_eq, delete_insert_eq. f_equal.
  now apply delete_id.
Qed.

Lemma editCommitMessage_round_trip_witness :
  Git.editCommitMessage (Git.typingEditor (js " docs: fix typo ")) ∅ (js "fix: typo")
  = (trim (js " docs: fix typo "), ∅).
Proof.
  refine (editCommitMessage_round_trip (Git.typingEditor (js " docs: fix typo "))
            ∅ (js "fix: typo") (js " docs: fix typo ") _ _); reflexivity.
Defined.

(** ** More on the display of a failed request *)

Lemma startsWith_app (p s : jsstring) : startsWith p (p ++ s) = true.
Proof.
  induction p as [|c p IH]; [reflexivity|]. simpl. now rewrite N.eqb_refl.
Qed.

Lemma skipn_length_app (p s : jsstring) : skipn (length p) (p ++ s) = s.
Proof. induction p as [|c p IH]; [reflexivity|exact IH]. Qed.

Lemma includes_here (p s : jsstring) : startsWith p s = true -> includes s p = true.
Proof. intros H. destruct s; simpl in *; now rewrite H. Qed.

Lemma includes_later (a s p : jsstring) :
  includes s p = true -> includes (a ++ s) p = true.
Proof.
  intros H. induction a as [|c a IH]; [exact H|].
  simpl. rewrite IH. apply orb_true_r.
Qed.

Lemma includes_longer (s b p : jsstring) :
  includes s p = true -> includes (s ++ b) p = true.
Proof.
  assert (Hs : forall q t, startsWith q t = true -> startsWith q (t ++ b) = true).
  { induction q as [|c q IH]; intros [|d t]; simpl; try reflexivity;
      try discriminate.
    intros H. apply andb_true_iff in H as [-> H]. now apply IH. }
  induction s as [|c s IH]; simpl.
  - rewrite orb_false_r. intros H. apply includes_here. now apply (Hs p []).
  - intros H. apply orb_true_iff in H as [H|H].
    + pose proof (Hs p (c :: s) H) as H'. cbn [app] in H'. now rewrite H'.
    + rewrite (IH H). apply orb_true_r.
Qed.

(** In a text without opening bracket, the lookahead for the detail only
    holds where nothing but white space is left. *)
Lemma detailAhead_ws (h rest : jsstring) :
  ~ In 91%N h -> detailAhead (h ++ TYPE_MARK ++ rest) = true ->
  Forall (fun c => isWhiteSpace c = true) h.
Proof.
  unfold detailAhead. induction h as [|c h IH]; intros Hno; [constructor|].
  cbn [app trimStart]. destruct (isWhiteSpace c) eqn:Hc.
  - intros H. constructor; [exact Hc|]. apply IH; [|exact H].
    intros Hin. apply Hno. now right.
  - intros H. exfalso. apply Hno. left.
    cbn in H. apply andb_true_iff in H as [H _]. apply N.eqb_eq in H.
    now symmetry.
Qed.

Lemma detailAhead_mark (rest : jsstring) : detailAhead (TYPE_MARK ++ rest) = true.
Proof. unfold detailAhead. cbn [app TYPE_MARK]. reflexivity. Qed.

Lemma lazyUntilDetail_eq (s : jsstring) :
  lazyUntilDetail s =
  if detailAhead s then Some []
  else match s with
       | [] => None
       | c :: s' =>
           match lazyUntilDetail s' with
           | Some cap => Some (c :: cap)
           | None => None
           end
       end.
Proof. destruct s; reflexivity. Qed.

(** What the lazy group takes of such a text: all of it but some white
    space at its end. *)
Lemma lazyUntilDetail_text (h rest : jsstring) :
  ~ In 91%N h ->
  exists cap w,
    h = cap ++ w /\ Forall (fun c => isWhiteSpace c = true) w
    /\ lazyUntilDetail (h ++ TYPE_MARK ++ rest) = Some cap.
Proof.
  induction h as [|c h IH]; intros Hno.
  - exists [], []. split; [reflexivity|]. split; [constructor|].
    cbn [app]. now rewrite lazyUntilDetail_eq, detailAhead_mark.
  - destruct (detailAhead ((c :: h) ++ TYPE_MARK ++ rest)) eqn:Ha.
    + exists [], (c :: h). split; [reflexivity|].
      split; [now apply (detailAhead_ws _ rest)|].
      now rewrite lazyUntilDetail_eq, Ha.
    + destruct IH as (cap & w & -> & Hw & Hcap); [intros Hin; apply Hno; now right|].
      exists (c :: cap), w. split; [reflexivity|]. split; [exact Hw|].
      rewrite lazyUntilDetail_eq, Ha. cbn [app]. now rewrite Hcap.
Qed.

Lemma startsWith_cons (a b : N) (p s : jsstring) :
  startsWith (a :: p) (b :: s) = (a =? b)%N && startsWith p s.
Proof. reflexivity. Qed.

(** No rate-limit head starts in a text without the two units [[4]. *)
Lemma rateLimitMatch_skip (pre rest : jsstring) :
  includes pre (js "[4") = false ->
  rateLimitMatch (pre ++ RATE_LIMIT_HEAD ++ rest)
  = rateLimitMatch (RATE_LIMIT_HEAD ++ rest).
Proof.
  induction pre as [|c pre IH]; [reflexivity|].
  intros Hno.
  change (startsWith (js "[4") (c :: pre) || includes pre (js "[4") = false) in Hno.
  apply orb_false_iff in Hno as [Hhere Hlater].
  cbn [app rateLimitMatch]. rewrite IH by exact Hlater.
  assert (Hat : rateLimitAt (c :: pre ++ RATE_LIMIT_HEAD ++ rest) = None).
  { unfold rateLimitAt.
    assert (Hs : startsWith RATE_LIMIT_HEAD (c :: pre ++ RATE_LIMIT_HEAD ++ rest)
                 = false); [|now rewrite Hs].
    change RATE_LIMIT_HEAD with (91%N :: 52%N :: js "29 Too Many Requests]").
    change (js "[4") with [91%N; 52%N] in Hhere.
    rewrite startsWith_cons in *.
    destruct (91 =? c)%N; [|reflexivity]. cbn [andb] in *.
    destruct pre as [|d pre'].
    - reflexivity.
    - cbn [app]. rewrite startsWith_cons in *.
      destruct (52 =? d)%N; [|reflexivity]. simpl in Hhere. discriminate Hhere. }
  now rewrite Hat.
Qed.

Lemma rateLimitMatch_eq (s : jsstring) :
  rateLimitMatch s =
  match rateLimitAt s with
  | Some cap => Some cap
  | None =>
      match s with
      | [] => None
      | _ :: s' => rateLimitMatch s'
      end
  end.
Proof. destruct s; reflexivity. Qed.

(** X16: the display of a rate-limit error, for every message of that
    shape: when the message holds the head [[429 Too Many Requests]],
    preceded by any text without the two units [[4] (such as the name of
    the library and the address that was called) and followed by a human
    text without opening bracket and then by the structured detail, what
    is displayed is the head and the human text, trimmed: the text in
    front of the head and the detail are both dropped. *)
Theorem displayMsg_rate_limit_general (pre human detail : jsstring) :
  includes pre (js "[4") = false -> ~ In 91%N human ->
  displayMsg (pre ++ RATE_LIMIT_HEAD ++ human ++ TYPE_MARK ++ detail)
  = trim (RATE_LIMIT_HEAD ++ human).
Proof.
  intros Hpre Hhuman. unfold displayMsg.
  assert (H429 : includes (pre ++ RATE_LIMIT_HEAD ++ human ++ TYPE_MARK ++ detail)
                          (js "429") = true).
  { apply includes_later. apply includes_longer. reflexivity. }
  rewrite H429. cbn [orb]. rewrite rateLimitMatch_skip by exact Hpre.
  destruct (lazyUntilDetail_text human detail Hhuman) as (cap & w & -> & Hw & Hcap).
  assert (Hat : rateLimitAt (RATE_LIMIT_HEAD ++ (cap ++ w) ++ TYPE_MARK ++ detail)
                = Some (RATE_LIMIT_HEAD ++ cap)).
  { unfold rateLimitAt. rewrite startsWith_app, skipn_length_app, Hcap. reflexivity. }
  assert (Hm : rateLimitMatch (RATE_LIMIT_HEAD ++ (cap ++ w) ++ TYPE_MARK ++ detail)
               = Some (RATE_LIMIT_HEAD ++ cap)).
  { now rewrite rateLimitMatch_eq, Hat. }
  rewrite Hm. unfold trim.
  rewrite (app_assoc RATE_LIMIT_HEAD cap w).
  change (trimStart (RATE_LIMIT_HEAD ++ cap)) with (RATE_LIMIT_HEAD ++ cap).
  change (trimStart ((RATE_LIMIT_HEAD ++ cap) ++ w))
    with ((RATE_LIMIT_HEAD ++ cap) ++ w).
  now rewrite (trimEnd_app_ws (RATE_LIMIT_HEAD ++ cap) w Hw).
Qed.

Lemma displayMsg_rate_limit_general_witness :
  displayMsg (js "[GoogleGenerativeAI Error]: Error fetching from https://ai: "
                ++ RATE_LIMIT_HEAD ++ js " You exceeded your current quota. "
                ++ TYPE_MARK ++ js ":type.googleapis.com/google.rpc.QuotaFailure}]")
  = trim (RATE_LIMIT_HEAD ++ js " You exceeded your current quota. ").
Proof.
  refine (displayMsg_rate_limit_general _ _ _ _ _).
  - vm_compute. reflexivity.
  - vm_compute. intuition discriminate.
Defined.

Lemma statusMatch_no_bracket (m : jsstring) : ~ In 91%N m -> statusMatch m = None.
Proof.
  induction m as [|c m IH]; intros Hno; [reflexivity|].
  cbn [statusMatch]. rewrite IH by (intros Hin; apply Hno; now right).
  assert (Hat : statusAt (c :: m) = None); [|now rewrite Hat].
  unfold statusAt. destruct m as [|d1 [|d2 [|d3 [|w rest]]]]; try reflexivity.
  destruct (N.eqb_spec c 91) as [->|_]; [|reflexivity].
  exfalso. apply Hno. now left.
Qed.

(** X17: a message that mentions neither 429 nor [Too Many Requests] and
    holds no opening bracket is displayed as it is, white space
    included. *)
Theorem displayMsg_plain_message (m : jsstring) :
  includes m (js "429") = false -> includes m (js "Too Many Requests") = false ->
  ~ In 91%N m -> displayMsg m = m.
Proof.
  intros H1 H2 Hno. unfold displayMsg. rewrite H1, H2. cbn [orb].
  now rewrite statusMatch_no_bracket.
Qed.

Lemma displayMsg_plain_message_witness :
  displayMsg (js " fetch failed ") = js " fetch failed ".
Proof.
  refine (displayMsg_plain_message (js " fetch failed ") _ _ _).
  - vm_compute. reflexivity.
  - vm_compute. reflexivity.
  - vm_compute. intuition discriminate.
Defined.

(** ** The start of the command-line tool *)

(** X18: the header of an option of the multi-select fits the room the
    terminal leaves: on a terminal of known width it is never longer than
    [max(20, columns - 15)]; a file and line that fit are shown whole,
    longer ones are cut on the left, three dots taking the place of what
    is cut, so that the end of the path and the line number stay
    visible. Without a known width nothing is cut. *)
Theorem optionHeader_fits (s : Finding) (cols : Z) :
  len (optionHeader s (Some cols)) <= Z.max 20 (cols - 15)
  /\ (len (fileStr s) <= Z.max 20 (cols - 15) ->
      optionHeader s (Some cols) = fileStr s)
  /\ (Z.max 20 (cols - 15) < len (fileStr s) ->
      optionHeader s (Some cols)
      = js "..." ++ skipn (Z.to_nat (len (fileStr s) - (Z.max 20 (cols - 15) - 3)))
                          (fileStr s)
      /\ len (optionHeader s (Some cols)) = Z.max 20 (cols - 15))
  /\ optionHeader s None = fileStr s.
Proof.
  unfold optionHeader. cbv zeta.
  set (maxPrefix := Z.max 20 (cols - 15)).
  assert (Hmax : 20 <= maxPrefix) by (unfold maxPrefix; lia).
  assert (Hcut : maxPrefix < len (fileStr s) ->
                 js "..." ++ sliceLast (maxPrefix - 3) (fileStr s)
                 = js "..." ++ skipn (Z.to_nat (len (fileStr s) - (maxPrefix - 3)))
                                     (fileStr s)
                 /\ len (js "..." ++ sliceLast (maxPrefix - 3) (fileStr s))
                    = maxPrefix).
  { intros Hlong. unfold sliceLast.
    destruct (Z.eqb_spec (maxPrefix - 3) 0); [lia|]. split; [reflexivity|].
    unfold len in *. rewrite length_app, length_skipn. simpl length. lia. }
  destruct (Z.gtb_spec (len (fileStr s)) maxPrefix) as [Hlong|Hshort].
  - destruct (Hcut Hlong) as [Heq Hlen]. split; [lia|]. split; [lia|].
    split; [intros _; split; assumption|reflexivity].
  - split; [exact Hshort|]. split; [reflexivity|]. split; [lia|reflexivity].
Qed.

Lemma optionHeader_fits_witness :
  optionHeader byContext (Some 80) = fileStr byContext.
Proof.
  refine (proj1 (proj2 (optionHeader_fits byContext 80)) _).
  vm_compute. discriminate.
Defined.

(** X19: the stage check never stages anything the user did not agree
    to: [git add .] runs only when nothing was staged, the working tree
    has changes and the question was answered with yes. With nothing
    staged and a clean tree the run ends with code 0 after the two
    queries; a declined or cancelled question ends it with code 0; a
    failing git command ends it with code 1; and without the credential
    the run ends with code 1 before any git command. *)
Theorem stageCheck_needs_consent (W : World) (confirm : prompt bool) :
  (In ADD_ALL (snd (stageCheck W confirm)) ->
   confirm = Answer true
   /\ exists staged status,
       execSync W LIST_STAGED = Ok staged /\ trim staged = []
       /\ execSync W STATUS = Ok status /\ trim status <> [])
  /\ (forall staged status,
         execSync W LIST_STAGED = Ok staged -> trim staged = [] ->
         execSync W STATUS = Ok status ->
         (trim status = [] -> stageCheck W confirm = (Stop 0, [LIST_STAGED; STATUS]))
         /\ (trim status <> [] -> confirm <> Answer true ->
             stageCheck W confirm = (Stop 0, [LIST_STAGED; STATUS])))
  /\ (forall staged,
         execSync W LIST_STAGED = Ok staged -> trim staged <> [] ->
         stageCheck W confirm = (Proceed, [LIST_STAGED]))
  /\ (fst (stageCheck W confirm) = Stop 1 ->
      exists cmd m, In cmd (snd (stageCheck W confirm)) /\ execSync W cmd = Throw m)
  /\ startup false W confirm = (Stop 1, []).
Proof.
  assert (Hadd : ~ In ADD_ALL [LIST_STAGED; STATUS]).
  { intros [H|[H|[]]]; vm_compute in H; discriminate H. }
  assert (Hadd1 : ~ In ADD_ALL [LIST_STAGED]).
  { intros [H|[]]; vm_compute in H; discriminate H. }
  unfold stageCheck.
  split; [|split; [|split; [|split; [|reflexivity]]]].
  - destruct (execSync W LIST_STAGED) as [staged|m]; [|intros H; now apply Hadd1 in H].
    destruct (trim staged) as [|c t] eqn:Hstaged; cbn [truthy];
      [|intros H; now apply Hadd1 in H].
    destruct (execSync W STATUS) as [status|m]; [|intros H; now apply Hadd in H].
    destruct (trim status) as [|c t] eqn:Hstatus; cbn [truthy negb];
      [intros H; now apply Hadd in H|].
    destruct confirm as [|[|]]; try (intros H; now apply Hadd in H).
    intros _. split; [reflexivity|]. exists staged, status.
    rewrite Hstatus. repeat split; auto.
  - intros staged status -> -> ->. cbn [truthy]. split.
    + intros ->. reflexivity.
    + intros Hdirty Hno. destruct (trim status); [congruence|]. cbn [truthy negb].
      destruct confirm as [|[|]]; [reflexivity|congruence|reflexivity].
  - intros staged -> Hsome. destruct (trim staged); [congruence|reflexivity].
  - destruct (execSync W LIST_STAGED) as [staged|m] eqn:E1.
    + destruct (truthy (trim staged)); [discriminate|].
      destruct (execSync W STATUS) as [status|m] eqn:E2.
      * destruct (negb (truthy (trim status))); [discriminate|].
        destruct confirm as [|[|]]; try discriminate.
        destruct (execSync W ADD_ALL) as [out|m] eqn:E3; [discriminate|].
        intros _. exists ADD_ALL, m. split; [simpl; tauto|exact E3].
      * intros _. exists STATUS, m. split; [simpl; tauto|exact E2].
    + intros _. exists LIST_STAGED, m. split; [simpl; tauto|exact E1].
Qed.

Lemma stageCheck_needs_consent_witness :
  Answer true = Answer true
  /\ exists staged status,
      execSync dirtyTree LIST_STAGED = Ok staged /\ trim staged = []
      /\ execSync dirtyTree STATUS = Ok status /\ trim status <> [].
Proof.
  refine (proj1 (stageCheck_needs_consent dirtyTree (Answer true)) _).
  vm_compute. tauto.
Defined.

(** ** The review request *)

Import Ai.

Lemma removeAllFrom_skip (alts : list jsstring) (s : jsstring) (k : nat) :
  removeAllFrom alts s k = removeAllFrom alts (skipn k s) 0.
Proof.
  revert k. induction s as [|c s IH]; intros [|k]; try reflexivity.
  simpl. apply IH.
Qed.

(** A match of the first alternative at the head is dropped whole. *)
Lemma removeAll_head (c : N) (p : jsstring) (alts : list jsstring) (s : jsstring) :
  removeAll ((c :: p) :: alts) ((c :: p) ++ s) = removeAll ((c :: p) :: alts) s.
Proof.
  unfold removeAll. cbn [app removeAllFrom find].
  change (c :: p ++ s) with ((c :: p) ++ s). rewrite startsWith_app.
  replace (length (c :: p) - 1)%nat with (length p) by (simpl; lia).
  now rewrite removeAllFrom_skip, skipn_length_app.
Qed.

Lemma removeAll_keep (alts : list jsstring) (c : N) (s : jsstring) :
  Forall (fun p => startsWith p (c :: s) = false) alts ->
  removeAll alts (c :: s) = c :: removeAll alts s.
Proof.
  intros H. unfold removeAll. cbn [removeAllFrom].
  replace (find (fun p => startsWith p (c :: s)) alts) with (@None jsstring);
    [reflexivity|].
  induction H as [|p alts Hp _ IH]; [reflexivity|]. cbn [find]. now rewrite Hp.
Qed.

Lemma fence_open_head (c : N) (s : jsstring) :
  c <> 96%N -> startsWith FENCE_OPEN (c :: s) = false.
Proof.
  intros Hc. change FENCE_OPEN with (96%N :: js "``json" ++ [NL]).
  rewrite startsWith_cons. destruct (N.eqb_spec 96 c); [congruence|reflexivity].
Qed.

Lemma fence_close_head (c d : N) (s : jsstring) :
  d <> 96%N -> startsWith FENCE_CLOSE (c :: d :: s) = false.
Proof.
  intros Hd. change FENCE_CLOSE with (10%N :: 96%N :: js "``").
  rewrite !startsWith_cons. destruct (N.eqb_spec 96 d); [congruence|].
  apply andb_false_r.
Qed.

Lemma ticks_head (c : N) (s : jsstring) :
  c <> 96%N -> startsWith TICKS (c :: s) = false.
Proof.
  intros Hc. change TICKS with (96%N :: js "``").
  rewrite startsWith_cons. destruct (N.eqb_spec 96 c); [congruence|reflexivity].
Qed.

Lemma removeFences_body (body : jsstring) :
  ~ In 96%N body ->
  removeAll [FENCE_OPEN; FENCE_CLOSE] (body ++ FENCE_CLOSE) = body.
Proof.
  induction body as [|c body IH]; intros Hno; [reflexivity|].
  cbn [app]. rewrite removeAll_keep.
  - f_equal. apply IH. intros Hin. apply Hno. now right.
  - repeat constructor.
    + apply fence_open_head. intros ->. apply Hno. now left.
    + destruct body as [|d body]; [now apply (fence_close_head c 10%N)|].
      apply fence_close_head. intros ->. apply Hno. right. now left.
Qed.

Lemma removeTicks_id (s : jsstring) : ~ In 96%N s -> removeAll [TICKS] s = s.
Proof.
  induction s as [|c s IH]; intros Hno; [reflexivity|].
  rewrite removeAll_keep.
  - f_equal. apply IH. intros Hin. apply Hno. now right.
  - repeat constructor. apply ticks_head. intros ->. apply Hno. now left.
Qed.

(** X20: a response wrapped in a json code fence is unwrapped: when the
    text between the opening fence and the closing fence holds no
    backtick, what is handed to the parser is that text, trimmed. *)
Theorem sanitize_unwraps_fence (body : jsstring) :
  ~ In 96%N body ->
  sanitize (FENCE_OPEN ++ body ++ FENCE_CLOSE) = trim body.
Proof.
  intros Hno. unfold sanitize.
  change FENCE_OPEN with (96%N :: js "``json" ++ [NL]) at 1 2.
  rewrite removeAll_head.
  change (96%N :: js "``json" ++ [NL]) with FENCE_OPEN.
  now rewrite removeFences_body, removeTicks_id.
Qed.

Lemma sanitize_unwraps_fence_witness :
  sanitize (FENCE_OPEN ++ js " {} " ++ FENCE_CLOSE) = trim (js " {} ").
Proof.
  apply sanitize_unwraps_fence. vm_compute. intros H.
  repeat (destruct H as [H|H]; [discriminate H|]). exact H.
Defined.

Lemma removeTicks_match (s : jsstring) :
  removeAll [TICKS] (96%N :: 96%N :: 96%N :: s) = removeAll [TICKS] s.
Proof. reflexivity. Qed.

Lemma startsWith_ticks_inv (s : jsstring) :
  startsWith TICKS s = true -> exists s', s = 96%N :: 96%N :: 96%N :: s'.
Proof.
  change TICKS with [96%N; 96%N; 96%N].
  destruct s as [|a [|b [|c s']]]; cbn [startsWith]; intros H;
    repeat (apply andb_true_iff in H as [? H]); try discriminate.
  exists s'. repeat match goal with E : (_ =? _)%N = true |- _ =>
    apply N.eqb_eq in E; subst end. reflexivity.
Qed.

(** Two backticks at the head of the result were at the head of the
    text. *)
Lemma removeTicks_head2 (s : jsstring) :
  startsWith [96%N; 96%N] s = false ->
  startsWith [96%N; 96%N] (removeAll [TICKS] s) = false.
Proof.
  assert (Hk : forall c t, startsWith [96%N; 96%N] t = false ->
               removeAll [TICKS] (c :: t) = c :: removeAll [TICKS] t).
  { intros c t Ht. apply removeAll_keep. repeat constructor.
    change TICKS with [96%N; 96%N; 96%N]. rewrite startsWith_cons, Ht.
    apply andb_false_r. }
  destruct s as [|x [|y s]].
  - reflexivity.
  - intros _. rewrite Hk by reflexivity. simpl. apply andb_false_r.
  - intros H. rewrite !startsWith_cons in H.
    destruct (N.eqb_spec 96 x) as [<-|Hx].
    + cbn [andb] in H. apply andb_false_iff in H as [Hy|H]; [|discriminate H].
      rewrite Hk by (rewrite startsWith_cons, Hy; reflexivity).
      rewrite removeAll_keep.
      * rewrite !startsWith_cons, Hy. reflexivity.
      * repeat constructor. change TICKS with [96%N; 96%N; 96%N].
        rewrite startsWith_cons, Hy. reflexivity.
    + rewrite removeAll_keep.
      * rewrite startsWith_cons. destruct (N.eqb_spec 96 x); [congruence|reflexivity].
      * repeat constructor. apply ticks_head. congruence.
Qed.

Lemma removeTicks_clean (n : nat) (s : jsstring) :
  (length s <= n)%nat -> includes (removeAll [TICKS] s) TICKS = false.
Proof.
  revert s. induction n as [|n IH]; intros s Hlen.
  - destruct s; [reflexivity|simpl in Hlen; lia].
  - destruct s as [|c s]; [reflexivity|].
    destruct (startsWith TICKS (c :: s)) eqn:E.
    + apply startsWith_ticks_inv in E as [s' E]. rewrite E, removeTicks_match.
      apply IH. injection E as -> ->. simpl in Hlen. simpl. lia.
    + rewrite removeAll_keep by (repeat constructor; exact E).
      cbn [includes]. rewrite (IH s) by (simpl in Hlen; lia).
      rewrite orb_false_r.
      change TICKS with [96%N; 96%N; 96%N] in E |- *.
      rewrite startsWith_cons in E |- *.
      destruct (96 =? c)%N; [|reflexivity]. cbn [andb] in E |- *.
      now apply removeTicks_head2.
Qed.

Lemma includes_trim (s p : jsstring) :
  includes s p = false -> includes (trim s) p = false.
Proof.
  intros H. destruct (includes (trim s) p) eqn:E; [|reflexivity].
  unfold trim in E.
  destruct (trimStart_suffix s) as [a Ha].
  destruct (trimEnd_prefix (trimStart s)) as [b Hb].
  apply (includes_longer _ b) in E. rewrite <- Hb in E.
  apply (includes_later a) in E. rewrite <- Ha in E. congruence.
Qed.

(** X21: whatever the service answers, the text handed to the parser
    holds no run of three backticks. *)
Theorem sanitize_no_ticks (text : jsstring) :
  includes (sanitize text) TICKS = false.
Proof.
  unfold sanitize. apply includes_trim. now apply (removeTicks_clean _ _ (le_n _)).
Qed.

Lemma blank_diff (diff : jsstring) :
  negb (truthy diff) || (len (trim diff) =? 0) = negb (truthy (trim diff)).
Proof.
  destruct diff as [|c diff]; [reflexivity|]. cbn [truthy negb orb].
  destruct (trim (c :: diff)); reflexivity.
Qed.

Lemma len_promptOf (diff : jsstring) : len (promptOf diff) <= 5026.
Proof.
  unfold promptOf, len. rewrite !length_app, length_firstn.
  change (length PROMPT_HEAD) with 23%nat. change (length PROMPT_TAIL) with 3%nat.
  change (Z.to_nat 5000) with 5000%nat. lia.
Qed.

(** X22: the review function sends at most one request, and only for a
    diff that is not blank when the credential is set: a blank diff gives
    [null] before the credential is looked at, a missing credential
    raises the error without a request, and otherwise one prompt is sent,
    which carries at most the first 5000 units of the diff (5026 units
    with its frame). *)
Theorem generateReviewAndCommit_request {Json : Type} (svc : Service Json)
    (diff : jsstring) :
  (trim diff = [] -> generateReviewAndCommit svc diff = (Ok None, []))
  /\ (trim diff <> [] -> Cli.present (apiKey svc) = None ->
      generateReviewAndCommit svc diff
      = (Throw (translate svc (js "errors.no_api_key") []), []))
  /\ (trim diff <> [] -> Cli.present (apiKey svc) <> None ->
      snd (generateReviewAndCommit svc diff) = [promptOf diff]
      /\ len (promptOf diff) <= 5026).
Proof.
  unfold generateReviewAndCommit. rewrite blank_diff.
  split; [|split].
  - now intros ->.
  - intros Hd ->. now destruct (trim diff).
  - intros Hd Hk. split; [|apply len_promptOf].
    destruct (trim diff); [congruence|]. cbn [truthy negb].
    destruct (Cli.present (apiKey svc)); [|congruence]. cbv zeta.
    destruct (generateContent svc _ _) as [text|m]; [|reflexivity].
    destruct (negb (truthy text)); [reflexivity|].
    now destruct (jsonParse svc (sanitize text)).
Qed.

Lemma generateReviewAndCommit_request_witness :
  snd (generateReviewAndCommit (answering (js "{}")) (js "+ let x = 1;"))
  = [promptOf (js "+ let x = 1;")]
  /\ len (promptOf (js "+ let x = 1;")) <= 5026.
Proof.
  refine (proj2 (proj2 (generateReviewAndCommit_request
                          (answering (js "{}")) (js "+ let x = 1;"))) _ _);
    vm_compute; discriminate.
Defined.

(** X23: the review is asked for exactly when a file is named: when the
    listing holds no name, [main] hands an empty diff to the review
    function, which returns [null] without a request; when it holds a
    name and the credential is set, one request is sent, with the prompt
    built from the collected diff. *)
Theorem review_requested_iff_file_named {Json : Type} (svc : Service Json)
    (W : World) (stagedFiles : list jsstring) :
  (existsb truthy stagedFiles = false ->
   generateReviewAndCommit svc (buildDiff W stagedFiles) = (Ok None, []))
  /\ (existsb truthy stagedFiles = true -> Cli.present (apiKey svc) <> None ->
      snd (generateReviewAndCommit svc (buildDiff W stagedFiles))
      = [promptOf (buildDiff W stagedFiles)]).
Proof.
  unfold generateReviewAndCommit. rewrite blank_diff. split.
  - intros H. unfold buildDiff. now rewrite buildDiffFrom_empty_names.
  - intros H Hk.
    rewrite (trim_truthy 70%N (buildDiff W stagedFiles));
      [|now apply buildDiffFrom_header|reflexivity].
    cbn [negb]. destruct (Cli.present (apiKey svc)); [|congruence]. cbv zeta.
    destruct (generateContent svc _ _) as [text|m]; [|reflexivity].
    destruct (negb (truthy text)); [reflexivity|].
    now destruct (jsonParse svc (sanitize text)).
Qed.

Lemma review_requested_iff_file_named_witness :
  generateReviewAndCommit (answering (js "{}")) (buildDiff dirtyTree [[]])
  = (Ok None, []).
Proof.
  refine (proj1 (review_requested_iff_file_named
                   (answering (js "{}")) dirtyTree [[]]) _).
  reflexivity.
Defined.

(** X24: a response that does not parse is reported with the parser's
    message and a quotation of the cleaned text that is at most 203 units
    long: the whole text when it has at most 200 units, else its first
    200 units and three dots. *)
Theorem generateReviewAndCommit_parse_error {Json : Type} (svc : Service Json)
    (diff text e : jsstring) :
  trim diff <> [] -> Cli.present (apiKey svc) <> None ->
  generateContent svc (translate svc (js "prompts.system") []) (promptOf diff)
  = Ok text ->
  text <> [] ->
  jsonParse svc (sanitize text) = Throw e ->
  exists quoted,
    fst (generateReviewAndCommit svc diff)
    = Throw (translate svc (js "errors.json_parse") [(js "message", e)]
               ++ [NL] ++ js "Raw: " ++ quoted)
    /\ len quoted <= 203
    /\ firstn 200 quoted = firstn 200 (sanitize text)
    /\ (len (sanitize text) <= 200 -> quoted = sanitize text)
    /\ (200 < len (sanitize text) ->
        quoted = firstn 200 (sanitize text) ++ js "...").
Proof.
  intros Hd Hk Hgen Htext Hparse. exists (snippet (sanitize text)).
  split.
  - unfold generateReviewAndCommit. rewrite blank_diff.
    destruct (trim diff); [congruence|]. cbn [truthy negb].
    destruct (Cli.present (apiKey svc)); [|congruence]. cbv zeta.
    rewrite Hgen. destruct text; [congruence|]. cbn [truthy negb].
    now rewrite Hparse.
  - unfold snippet. change (Z.to_nat 200) with 200%nat.
    destruct (Z.gtb_spec (len (sanitize text)) 200) as [Hlong|Hshort].
    + unfold len in *. rewrite length_app, length_firstn. simpl length.
      split; [lia|]. split; [|split; [lia|reflexivity]].
      rewrite firstn_app, firstn_firstn, length_firstn.
      replace (200 - Nat.min 200 (length (sanitize text)))%nat with 0%nat by lia.
      rewrite Nat.min_id. cbn [firstn]. apply app_nil_r.
    + unfold len in *. split; [lia|]. split; [reflexivity|]. split; [reflexivity|lia].
Qed.

Lemma generateReviewAndCommit_parse_error_witness :
  exists quoted,
    fst (generateReviewAndCommit (answering (js "oops")) (js "+ let x = 1;"))
    = Throw (translate (answering (js "oops")) (js "errors.json_parse")
                       [(js "message", js "Unexpected token")]
               ++ [NL] ++ js "Raw: " ++ quoted)
    /\ len quoted <= 203
    /\ firstn 200 quoted = firstn 200 (sanitize (js "oops"))
    /\ (len (sanitize (js "oops")) <= 200 -> quoted = sanitize (js "oops"))
    /\ (200 < len (sanitize (js "oops")) ->
        quoted = firstn 200 (sanitize (js "oops")) ++ js "...").
Proof.
  apply (generateReviewAndCommit_parse_error
           (answering (js "oops")) (js "+ let x = 1;") (js "oops")
           (js "Unexpected token"));
    vm_compute; first [reflexivity | discriminate].
Defined.

(** ** What a round of annotation does to the files *)

Lemma applySuggestion_dom (fs fs' : Fs.t) (item : Finding) (injected : bool) :
  applySuggestion fs item = Ok (fs', injected) -> dom fs' = dom fs.
Proof.
  unfold applySuggestion, Fs.existsSync.
  destruct (fs !! filePath item) as [f|] eqn:Hf; cbn [negb].
  - destruct (Fs.readFileSync fs (filePath item)) as [content|m]; [|discriminate].
    destruct (inject item (split_nl content) _) as [lines' [|]].
    + intros [= <- _]. unfold Fs.writeFileSync.
      apply dom_insert_lookup_L. now rewrite Hf.
    + now intros [= <- _].
  - now intros [= <- _].
Qed.

Lemma applyOne_frame (pending : list Finding) (r r' : Round) (idx : nat) :
  applyOne pending r idx = Ok r' ->
  dom (disk r') = dom (disk r)
  /\ forall p,
       (appliedAt pending r idx = true ->
        forall item, pending !! idx = Some item -> filePath item <> p) ->
       disk r' !! p = disk r !! p.
Proof.
  unfold applyOne, appliedAt.
  destruct (pending !! idx) as [item|]; [|discriminate].
  destruct (applySuggestion (disk r) item) as [[fs' injected]|m] eqn:E;
    [|discriminate].
  pose proof (applySuggestion_dom _ _ _ _ E) as Hdom.
  destruct injected; intros [= <-]; cbn [disk]; (split; [exact Hdom|]); intros p Hp.
  - apply (applySuggestion_frame _ _ _ _ _ E). intros ->.
    now apply (Hp eq_refl item).
  - now rewrite (applySuggestion_not_applied _ _ _ E).
Qed.

(** X25: a round of annotation neither creates nor deletes a file, and
    changes no file but those of the findings it applied: every path that
    is not the file of an applied finding holds after the round what it
    held before, and a round that applied nothing leaves the disk as it
    was. *)
Theorem applySelected_touches_applied_only (pending : list Finding)
    (r r' : Round) (selected : list nat) :
  applySelected pending r selected = Ok r' ->
  dom (disk r') = dom (disk r)
  /\ (forall p,
         (forall idx item, In idx (appliedLog pending r selected) ->
                           pending !! idx = Some item -> filePath item <> p) ->
         disk r' !! p = disk r !! p)
  /\ (appliedLog pending r selected = [] -> disk r' = disk r).
Proof.
  revert r. induction selected as [|idx rest IH]; intros r; cbn [applySelected appliedLog].
  - intros [= <-]. repeat split; reflexivity.
  - destruct (applyOne pending r idx) as [r1|m] eqn:E; [|discriminate].
    intros Hrest. destruct (IH r1 Hrest) as (Hdom & Hframe & Hnone).
    destruct (applyOne_frame _ _ _ _ E) as [Hdom1 Hframe1].
    destruct (applyOne_Ok _ _ _ _ E) as (_ & _ & _ & Hsame).
    split; [now rewrite Hdom|]. split.
    + intros p Hp. rewrite Hframe.
      * apply Hframe1. intros Happlied item Hitem. apply (Hp idx item); [|exact Hitem].
        rewrite Happlied. now left.
      * intros j item Hj. apply Hp.
        destruct (appliedAt pending r idx); [now right|exact Hj].
    + destruct (appliedAt pending r idx); [discriminate|].
      intros Hlog. now rewrite (Hnone Hlog), Hsame.
Qed.

Lemma applySelected_touches_applied_only_witness :
  match applySelected [byContext] (freshRound {[ js "f.js" := sourceFile threeLines ]})
                      [0%nat] with
  | Ok r' => dom (disk r') = dom (disk (freshRound {[ js "f.js" := sourceFile threeLines ]}))
  | Throw _ => False
  end.
Proof.
  destruct (applySelected [byContext] (freshRound {[ js "f.js" := sourceFile threeLines ]})
                          [0%nat]) as [r'|m] eqn:E.
  - exact (proj1 (applySelected_touches_applied_only _ _ _ _ E)).
  - vm_compute in E. discriminate E.
Defined.
